(** * DeeJay: the latency-compensated time-stretch / pitch processor

    A shallow embedding of [TimeStretchPitchProcessor.{h,cpp}] and
    [LatencyCompensatedProcessor.{h,cpp}], followed by the properties of
    the latency bookkeeping.

    Conventions of the embedding.
    - [size_t] is a 64-bit unsigned integer and [int] a 32-bit signed one,
      both carried as [Z]; every [size_t] operation has its wrap-around
      written out.
    - [double] and [float] values are IEEE-754 numbers in the kernel's
      [spec_float] representation (binary64 and binary32; NaN payloads are
      not distinguished).
    - a [std::vector<float>] is a [list float]; an allocation of a
      representable size is assumed to succeed.
    - a method of a C++ object takes the object's state last and returns
      the new state; calls that can leave the defined behaviour of C++
      (a read past the caller's buffer, an unrepresentable conversion, a
      vector of impossible size) return [None].
    - the conditional compilation on [DEEJAY_HAVE_RUBBERBAND] is the
      constructor of the engine slot held by the processor. *)

From Stdlib Require Import ZArith Lia String.
From Stdlib.Floats Require Import SpecFloat.
From stdpp Require Import base option list.

Open Scope Z_scope.

(** ** Machine integers *)

Definition SIZE_MAX : Z := 2 ^ 64 - 1.

(** Reduction of an integer to [size_t]: [static_cast<size_t>] of any
    integer type, and the result of every [size_t] operation. *)
Definition to_size_t (z : Z) : Z := z mod 2 ^ 64.

Definition size_add (a b : Z) : Z := to_size_t (a + b).
Definition size_sub (a b : Z) : Z := to_size_t (a - b).
Definition size_mul (a b : Z) : Z := to_size_t (a * b).

Definition is_size_t (z : Z) : Prop := 0 <= z <= SIZE_MAX.
Definition is_int (z : Z) : Prop := - 2 ^ 31 <= z < 2 ^ 31.

(** ** Floating point *)

Definition double : Type := spec_float.
Definition float : Type := spec_float.

(** The double, resp. float, nearest to [m * 2 ^ e]. *)
Definition double_lit (m e : Z) : double := binary_normalize 53 1024 m e false.
Definition float_lit (m e : Z) : float := binary_normalize 24 128 m e false.

Definition double_mul : double → double → double := SFmul 53 1024.
Definition double_div : double → double → double := SFdiv 53 1024.

(** [static_cast<double>(int)]. *)
Definition double_of_int (i : Z) : double := binary_normalize 53 1024 i 0 false.

(** The implicit conversion of a [float] to [double]. *)
Definition double_of_float (f : float) : double :=
  match f with
  | S754_finite s m e => binary_normalize 53 1024 (cond_Zopp s (Zpos m)) e s
  | _ => f
  end.

(** [static_cast<size_t>(double)]: the value is truncated toward zero; the
    conversion is undefined when the truncated value is not a [size_t]. *)
Definition size_of_double (d : double) : option Z :=
  match d with
  | S754_zero _ => Some 0
  | S754_finite s m e =>
      let q := if 0 <=? e then Zpos m * 2 ^ e else Zpos m / 2 ^ (- e) in
      let z := cond_Zopp s q in
      if (0 <=? z) && (z <=? SIZE_MAX) then Some z else None
  | _ => None
  end.

(** Two floating-point numbers denote the same number; the mantissas are
    compared once both are scaled to the smaller exponent. *)
Definition same_value (x y : spec_float) : Prop :=
  match x, y with
  | S754_zero s, S754_zero s' => s = s'
  | S754_infinity s, S754_infinity s' => s = s'
  | S754_nan, S754_nan => True
  | S754_finite s m e, S754_finite s' m' e' =>
      s = s' ∧ Zpos m * 2 ^ (e - Z.min e e') = Zpos m' * 2 ^ (e' - Z.min e e')
  | _, _ => False
  end.

(** [0.0f], the sample value used for padding. *)
Definition zero_sample : float := S754_zero false.

(** ** Buffers *)

(** Reading [n] samples at offset [off] of the buffer a [const float *]
    points to; [None] when the range leaves the buffer. *)
Definition read (buf : list float) (off n : Z) : option (list float) :=
  if decide (0 <= off ∧ 0 <= n ∧ off + n <= Z.of_nat (length buf))
  then Some (take (Z.to_nat n) (drop (Z.to_nat off) buf))
  else None.

(** Writing [data] at offset [off] of a buffer; [None] when the range
    leaves the buffer. *)
Definition write (buf : list float) (off : Z) (data : list float) : option (list float) :=
  if decide (0 <= off ∧ off + Z.of_nat (length data) <= Z.of_nat (length buf))
  then Some (list_inserts (Z.to_nat off) data buf)
  else None.

(** [v.size()]. *)
Definition size (v : list float) : Z := Z.of_nat (length v).

(** [v.clear()]. *)
Definition vclear (v : list float) : list float := [].

(** [v.resize(n)] and [v.resize(n, value)]: [resize] of stdpp truncates or
    pads exactly as [std::vector::resize] does. *)
Definition vresize (n : Z) (value : float) (v : list float) : list float :=
  resize (Z.to_nat n) value v.

(** ** The parameter records of [TimeStretchPitchProcessor.h] *)

Record StretchQuality := {
  formantPreservation : float;
  transientSensitivity : float;
  highQuality : bool
}.

Definition StretchQuality_default : StretchQuality :=
  {| formantPreservation := float_lit 1 (-1);
     transientSensitivity := float_lit 1 (-1);
     highQuality := true |}.

Record Parameters := {
  tempoRatio : double;
  pitchSemitones : double;
  quality : StretchQuality
}.

Definition Parameters_default : Parameters :=
  {| tempoRatio := double_lit 1 0;
     pitchSemitones := double_lit 0 0;
     quality := StretchQuality_default |}.

Record EndpointDescriptor := {
  id : string;
  label : string;
  minimum : double;
  maximum : double;
  defaultValue : double;
  integer : bool;
  description : string
}.

(** ** The external collaborators

    The RubberBand library and [std::pow] are not part of the repository:
    they are taken as a parameter, the stretcher being a state that its
    member functions transform.  Each function takes the arguments the
    call sites of the adapter pass.  [stretcher_process] receives, per
    channel, the [samples] values its channel pointer gives access to;
    [retrieve] returns, per channel, the values it stored through the
    corresponding output pointer, of which there are at most [samples]. *)
Class RubberBand := {
  RubberBandStretcher : Type;
  OptionProcessRealTime : Z;
  OptionPitchHighQuality : Z;
  OptionThreadingAuto : Z;
  OptionPitchHighSpeed : Z;
  OptionTransientsSmooth : Z;
  OptionFormantPreserved : Z;
  make_stretcher : double → Z → Z → RubberBandStretcher;
  setPitchScale : double → RubberBandStretcher → RubberBandStretcher;
  setTimeRatio : double → RubberBandStretcher → RubberBandStretcher;
  stretcher_process : list (list float) → Z → bool → RubberBandStretcher → RubberBandStretcher;
  stretcher_available : RubberBandStretcher → Z;
  retrieve : Z → RubberBandStretcher → list (list float) * RubberBandStretcher;
  getLatency : RubberBandStretcher → Z;
  stretcher_reset : RubberBandStretcher → RubberBandStretcher;
  std_pow : double → double → double
}.

(** [semitonesToRatio] of the anonymous namespace. *)
Definition semitonesToRatio `{RubberBand} (semitones : double) : double :=
  std_pow (double_lit 2 0) (double_div semitones (double_lit 12 0)).

(** ** [TimeStretchPitchProcessor::RubberBandAdapter] *)

Module RubberBandAdapter.
Section Adapter.
Context `{RubberBand}.

Record t := {
  channelCount_ : Z;
  parameters_ : Parameters;
  stretcher_ : RubberBandStretcher
}.

Definition setParameters (parameters : Parameters) (a : t) : t :=
  let s := setPitchScale (semitonesToRatio (pitchSemitones parameters)) (stretcher_ a) in
  let s := setTimeRatio (tempoRatio parameters) s in
  {| channelCount_ := channelCount_ a; parameters_ := parameters; stretcher_ := s |}.

(** The constructor. [0.6f] is the float [10066330 * 2 ^ -24]. *)
Definition new (sampleRate : double) (channelCount : Z) (parameters : Parameters) : t :=
  let options :=
    Z.lor (Z.lor OptionProcessRealTime OptionPitchHighQuality) OptionThreadingAuto in
  let options :=
    if negb (highQuality (quality parameters))
    then Z.lor options OptionPitchHighSpeed else options in
  let options :=
    if SFltb (float_lit 10066330 (-24)) (transientSensitivity (quality parameters))
    then Z.lor options OptionTransientsSmooth else options in
  let options :=
    if SFltb (float_lit 10066330 (-24)) (formantPreservation (quality parameters))
    then Z.lor options OptionFormantPreserved else options in
  setParameters parameters
    {| channelCount_ := channelCount;
       parameters_ := Parameters_default;
       stretcher_ := make_stretcher sampleRate channelCount options |}.

Definition getParameters (a : t) : Parameters := parameters_ a.

(** The second loop of [process] together with [retrieve]: channel [ch]
    receives at most [available] values at [output.data() + ch * available]. *)
Fixpoint store_channels (chs : list Z) (available : Z)
    (written : list (list float)) (output : list float) : option (list float) :=
  match chs with
  | [] => Some output
  | ch :: chs =>
      output ← write output (size_mul (to_size_t ch) available)
                 (take (Z.to_nat available) (default [] (written !! Z.to_nat ch)));
      store_channels chs available written output
  end.

(** [channels(channelCount_)] throws [std::length_error] for a negative
    count, whose conversion to [size_t] no vector can hold. *)
Definition process (input : list float) (frames : Z) (output : list float) (a : t)
    : option (Z * list float * t) :=
  if channelCount_ a <? 0 then None else
  channels ← mapM (λ ch, read input (size_mul (to_size_t ch) frames) frames)
               (seqZ 0 (channelCount_ a));
  let s := stretcher_process channels frames false (stretcher_ a) in
  let available := to_size_t (stretcher_available s) in
  let output :=
    vresize (size_mul available (to_size_t (channelCount_ a))) zero_sample output in
  let '(written, s) := retrieve available s in
  output ← store_channels (seqZ 0 (channelCount_ a)) available written output;
  Some (available, output,
        {| channelCount_ := channelCount_ a; parameters_ := parameters_ a; stretcher_ := s |}).

Definition latency (a : t) : Z := to_size_t (getLatency (stretcher_ a)).

Definition reset (a : t) : t :=
  {| channelCount_ := channelCount_ a;
     parameters_ := parameters_ a;
     stretcher_ := stretcher_reset (stretcher_ a) |}.

End Adapter.
End RubberBandAdapter.

(** ** [TimeStretchPitchProcessor] *)

Module TimeStretchPitchProcessor.
Section Processor.
Context `{RubberBand}.

(** The member that depends on [DEEJAY_HAVE_RUBBERBAND]: the owned
    adapter (possibly null) when the macro is defined, the placeholder
    latency otherwise. *)
Inductive Engine :=
| processor_ (a : option RubberBandAdapter.t)
| simulatedLatencySamples_ (n : Z).

Record t := {
  sampleRate_ : double;
  channelCount_ : Z;
  parameters_ : Parameters;
  engine_ : Engine
}.

Definition with_engine (e : Engine) (tp : t) : t :=
  {| sampleRate_ := sampleRate_ tp;
     channelCount_ := channelCount_ tp;
     parameters_ := parameters_ tp;
     engine_ := e |}.

(** The literal [0.01], which denotes the double [0x1.47ae147ae147bp-7]. *)
Definition one_hundredth : double := double_lit 5764607523034235 (-59).

(** [static_cast<size_t>(sampleRate_ * 0.01)], the 10 ms placeholder. *)
Definition placeholderLatency (sampleRate : double) : option Z :=
  size_of_double (double_mul sampleRate one_hundredth).

Definition configureProcessor (tp : t) : option t :=
  match engine_ tp with
  | processor_ _ =>
      Some (with_engine
              (processor_ (Some (RubberBandAdapter.new
                                   (sampleRate_ tp) (channelCount_ tp) (parameters_ tp))))
              tp)
  | simulatedLatencySamples_ _ =>
      n ← placeholderLatency (sampleRate_ tp);
      Some (with_engine (simulatedLatencySamples_ n) tp)
  end.

(** The constructor; [have_rubberband] says whether the build defines
    [DEEJAY_HAVE_RUBBERBAND]. *)
Definition new (have_rubberband : bool) (sampleRate : double) (channelCount : Z)
    (defaults : Parameters) : option t :=
  configureProcessor
    {| sampleRate_ := sampleRate;
       channelCount_ := channelCount;
       parameters_ := defaults;
       engine_ := if have_rubberband then processor_ None
                  else simulatedLatencySamples_ 0 |}.

Definition setParameters (parameters : Parameters) (tp : t) : option t :=
  let tp :=
    {| sampleRate_ := sampleRate_ tp;
       channelCount_ := channelCount_ tp;
       parameters_ := parameters;
       engine_ := engine_ tp |} in
  match engine_ tp with
  | processor_ (Some a) =>
      Some (with_engine
              (processor_ (Some (RubberBandAdapter.setParameters (parameters_ tp) a))) tp)
  | processor_ None => Some tp
  | simulatedLatencySamples_ _ =>
      n ← placeholderLatency (sampleRate_ tp);
      Some (with_engine (simulatedLatencySamples_ n) tp)
  end.

Definition getParameters (tp : t) : Parameters := parameters_ tp.

Definition describeEndpoints (tp : t) : list EndpointDescriptor :=
  [ {| id := "tempo"; label := "Tempo Ratio";
       minimum := double_lit 1 (-1); maximum := double_lit 5 (-1);
       defaultValue := tempoRatio (parameters_ tp); integer := false;
       description := "Time-stretch control exposed to slider and numeric input." |};
    {| id := "pitch"; label := "Pitch (semitones)";
       minimum := double_lit (-12) 0; maximum := double_lit 12 0;
       defaultValue := pitchSemitones (parameters_ tp); integer := false;
       description := "Pitch shift in semitones, mapped to rotary or numeric control." |};
    {| id := "formant"; label := "Formant Preservation";
       minimum := double_lit 0 0; maximum := double_lit 1 0;
       defaultValue := double_of_float (formantPreservation (quality (parameters_ tp)));
       integer := false;
       description := "Blend between neutral and formant-preserving processing." |};
    {| id := "transient"; label := "Transient Sensitivity";
       minimum := double_lit 0 0; maximum := double_lit 1 0;
       defaultValue := double_of_float (transientSensitivity (quality (parameters_ tp)));
       integer := false;
       description := "Higher values keep percussive edges sharper." |} ].

Definition process (input : list float) (frames : Z) (output : list float) (tp : t)
    : option (Z * list float * t) :=
  match engine_ tp with
  | processor_ a =>
      tp ← (if a is None then configureProcessor tp else Some tp);
      match engine_ tp with
      | processor_ (Some a) =>
          '(produced, output, a) ← RubberBandAdapter.process input frames output a;
          Some (produced, output, with_engine (processor_ (Some a)) tp)
      | _ => None
      end
  | simulatedLatencySamples_ _ =>
      let samples := size_mul frames (to_size_t (channelCount_ tp)) in
      output ← read input 0 samples;
      Some (frames, output, tp)
  end.

Definition getLatencySamples (tp : t) : Z :=
  match engine_ tp with
  | processor_ (Some a) => RubberBandAdapter.latency a
  | processor_ None => 0
  | simulatedLatencySamples_ n => n
  end.

Definition reset (tp : t) : t :=
  match engine_ tp with
  | processor_ (Some a) => with_engine (processor_ (Some (RubberBandAdapter.reset a))) tp
  | _ => tp
  end.

Definition channelCount (tp : t) : Z := channelCount_ tp.
Definition sampleRate (tp : t) : double := sampleRate_ tp.

End Processor.
End TimeStretchPitchProcessor.

(** ** [LatencyCompensatedProcessor] *)

Module LatencyCompensatedProcessor.

Record Controls := {
  tempoRatio : double;
  pitchSemitones : double;
  manualLatencySamples : Z
}.

Definition Controls_default : Controls :=
  {| tempoRatio := double_lit 1 0;
     pitchSemitones := double_lit 0 0;
     manualLatencySamples := 0 |}.

Record ControlEndpoint := {
  id : string;
  label : string;
  type : string;
  minimum : double;
  maximum : double;
  defaultValue : double;
  description : string
}.

Section Processor.
Context `{RubberBand}.

Record t := {
  processor_ : TimeStretchPitchProcessor.t;
  controls_ : Controls;
  pendingLatencySamples_ : Z;
  channelCount_ : Z
}.

Definition totalLatencySamples (p : t) : Z :=
  size_add (TimeStretchPitchProcessor.getLatencySamples (processor_ p))
           (to_size_t (Z.max 0 (manualLatencySamples (controls_ p)))).

Definition refreshPendingLatency (p : t) : t :=
  {| processor_ := processor_ p;
     controls_ := controls_ p;
     pendingLatencySamples_ := totalLatencySamples p;
     channelCount_ := channelCount_ p |}.

(** The constructor; [have_rubberband] as for [TimeStretchPitchProcessor.new]. *)
Definition new (have_rubberband : bool) (sampleRate : double) (channelCount : Z)
    : option t :=
  tp ← TimeStretchPitchProcessor.new have_rubberband sampleRate channelCount
         Parameters_default;
  Some (refreshPendingLatency
          {| processor_ := tp;
             controls_ := Controls_default;
             pendingLatencySamples_ := 0;
             channelCount_ := channelCount |}).

Definition updateControls (controls : Controls) (p : t) : option t :=
  tp ← TimeStretchPitchProcessor.setParameters
         (Build_Parameters (tempoRatio controls) (pitchSemitones controls)
                           StretchQuality_default)
         (processor_ p);
  Some (refreshPendingLatency
          {| processor_ := tp;
             controls_ := controls;
             pendingLatencySamples_ := pendingLatencySamples_ p;
             channelCount_ := channelCount_ p |}).

Definition currentControls (p : t) : Controls := controls_ p.

(** [processBlock] returns the frame count, the contents of [output] after
    the call and the new state. *)
Definition processBlock (input : list float) (frames : Z) (output : list float) (p : t)
    : option (Z * list float * t) :=
  '(produced, processed, tp) ←
    TimeStretchPitchProcessor.process input frames [] (processor_ p);
  let output := vclear output in
  let samplesPerFrame := to_size_t (channelCount_ p) in
  let pendingSamples :=
    Z.min (pendingLatencySamples_ p) (size_mul produced samplesPerFrame) in
  let '(output, pending) :=
    if 0 <? pendingSamples
    then (vresize pendingSamples zero_sample output,
          size_sub (pendingLatencySamples_ p) pendingSamples)
    else (output, pendingLatencySamples_ p) in
  let output := output ++ processed in
  let '(output, pending) :=
    if 0 <? pending
    then (vresize (size_add (size output) pending) zero_sample output, 0)
    else (output, pending) in
  Some (produced, output,
        {| processor_ := tp;
           controls_ := controls_ p;
           pendingLatencySamples_ := pending;
           channelCount_ := channelCount_ p |}).

Definition controlEndpoints (p : t) : list ControlEndpoint :=
  [ {| id := "tempo"; label := "Tempo"; type := "slider";
       minimum := double_lit 1 (-1); maximum := double_lit 5 (-1);
       defaultValue := tempoRatio (controls_ p);
       description := "User-facing tempo slider bound to time-stretch ratio." |};
    {| id := "pitch"; label := "Pitch"; type := "slider";
       minimum := double_lit (-12) 0; maximum := double_lit 12 0;
       defaultValue := pitchSemitones (controls_ p);
       description := "Pitch slider or numeric input in semitones." |};
    {| id := "manualLatency"; label := "Manual Latency"; type := "numeric";
       minimum := double_lit 0 0; maximum := double_lit 4096 0;
       defaultValue := double_of_int (manualLatencySamples (controls_ p));
       description :=
         "Additional latency compensation in samples, editable via numeric input." |} ].

End Processor.
End LatencyCompensatedProcessor.

(** ** States, callers and a stand-in engine used by the statements *)

Module TSPP := TimeStretchPitchProcessor.
Module LCP := LatencyCompensatedProcessor.

Section Statements.
Context `{RubberBand}.

(** The adapter owned by a stretch processor was built for the processor's
    channel count, and a placeholder latency is the one computed from the
    processor's sample rate.  Both hold from construction on. *)
Definition engine_consistent (tp : TSPP.t) : Prop :=
  match TSPP.engine_ tp with
  | TSPP.processor_ (Some a) => RubberBandAdapter.channelCount_ a = TSPP.channelCount_ tp
  | TSPP.processor_ None => True
  | TSPP.simulatedLatencySamples_ n => TSPP.placeholderLatency (TSPP.sampleRate_ tp) = Some n
  end.

(** The invariant of a latency-compensated processor: its stretch processor
    is consistent, both hold the same channel count, and the pending
    counter is a [size_t]. *)
Definition consistent (p : LCP.t) : Prop :=
  engine_consistent (LCP.processor_ p)
  ∧ LCP.channelCount_ p = TSPP.channelCount_ (LCP.processor_ p)
  ∧ is_size_t (LCP.pendingLatencySamples_ p).

(** The build without RubberBand. *)
Definition is_placeholder (tp : TSPP.t) : Prop :=
  match TSPP.engine_ tp with
  | TSPP.simulatedLatencySamples_ _ => True
  | _ => False
  end.

(** The processor that construction yields without the library, [n] being
    the placeholder latency of the sample rate. *)
Definition placeholder_state (sampleRate : double) (channelCount n : Z) : LCP.t :=
  {| LCP.processor_ :=
       {| TSPP.sampleRate_ := sampleRate;
          TSPP.channelCount_ := channelCount;
          TSPP.parameters_ := Parameters_default;
          TSPP.engine_ := TSPP.simulatedLatencySamples_ n |};
     LCP.controls_ := LCP.Controls_default;
     LCP.pendingLatencySamples_ := n;
     LCP.channelCount_ := channelCount |}.

(** [primed c p]: [p] is the state right after construction ([c] being the
    default controls) or right after [updateControls c] on any state. *)
Inductive primed : LCP.Controls → LCP.t → Prop :=
| primed_new have_rubberband sampleRate channelCount p :
    LCP.new have_rubberband sampleRate channelCount = Some p →
    primed LCP.Controls_default p
| primed_update c p0 p :
    LCP.updateControls c p0 = Some p →
    primed c p.

(** One [processBlock] call as its caller sees it, together with the
    samples the stretch processor handed back during that call. *)
Record Block := {
  block_produced : Z;
  block_processed : list float;
  block_output : list float
}.

Definition traced_call (call : list float * Z) (p : LCP.t) : option (Block * LCP.t) :=
  '(_, processed, _) ← TSPP.process call.1 call.2 [] (LCP.processor_ p);
  '(produced, output, p) ← LCP.processBlock call.1 call.2 [] p;
  Some ({| block_produced := produced;
           block_processed := processed;
           block_output := output |}, p).

(** A caller issuing [processBlock] calls back to back, with no control
    update in between. *)
Fixpoint processBlocks (calls : list (list float * Z)) (p : LCP.t)
    : option (list Block * LCP.t) :=
  match calls with
  | [] => Some ([], p)
  | call :: calls =>
      '(b, p) ← traced_call call p;
      '(bs, p) ← processBlocks calls p;
      Some (b :: bs, p)
  end.

(** The padding of a block: what its output holds beyond the samples of
    the stretch processor. *)
Definition zeros_injected (b : Block) : Z :=
  size (block_output b) - size (block_processed b).

Definition total_injected (bs : list Block) : Z :=
  foldr (λ b acc, zeros_injected b + acc) 0 bs.

End Statements.

(** A stand-in for the library, for running the embedding on concrete
    inputs: it hands back the frames it was given, channel by channel,
    and reports a latency of 256 frames.  The option bits are those of
    [rubberband/RubberBandStretcher.h]. *)
Definition loopback : RubberBand :=
  {| RubberBandStretcher := list (list float);
     OptionProcessRealTime := 0x00000001;
     OptionPitchHighQuality := 0x02000000;
     OptionThreadingAuto := 0x00000000;
     OptionPitchHighSpeed := 0x00000000;
     OptionTransientsSmooth := 0x00000200;
     OptionFormantPreserved := 0x01000000;
     make_stretcher := λ _ _ _, [];
     setPitchScale := λ _ s, s;
     setTimeRatio := λ _ s, s;
     stretcher_process := λ channels _ _ _, channels;
     stretcher_available := λ s, size (default [] (head s));
     retrieve := λ n s, (take (Z.to_nat n) <$> s, []);
     getLatency := λ _, 256;
     stretcher_reset := λ _, [];
     std_pow := λ _ _, double_lit 1 0 |}.

(** ** Concrete inputs

    The processors constructed for a 48 kHz stereo stream, in the build
    without the library and in the build with it, a control update and a
    few samples. *)
Definition fresh_placeholder : @LCP.t loopback :=
  placeholder_state (double_lit 48000 0) 2 480.

Definition fresh_rubberband : @LCP.t loopback :=
  {| LCP.processor_ :=
       {| TSPP.sampleRate_ := double_lit 48000 0;
          TSPP.channelCount_ := 2;
          TSPP.parameters_ := Parameters_default;
          TSPP.engine_ :=
            TSPP.processor_
              (Some {| RubberBandAdapter.channelCount_ := 2;
                       RubberBandAdapter.parameters_ := Parameters_default;
                       RubberBandAdapter.stretcher_ :=
                         ([] : @RubberBandStretcher loopback) |}) |};
     LCP.controls_ := LCP.Controls_default;
     LCP.pendingLatencySamples_ := 256;
     LCP.channelCount_ := 2 |}.

(** Tempo 1.25, three semitones up, 2000 samples of manual latency. *)
Definition late_controls : LCP.Controls :=
  {| LCP.tempoRatio := double_lit 5 (-2);
     LCP.pitchSemitones := double_lit 3 0;
     LCP.manualLatencySamples := 2000 |}.

(** Three stereo frames. *)
Definition three_frames : list float :=
  [ float_lit 1 (-2); float_lit (-1) (-2); float_lit 1 (-1);
    float_lit (-1) (-1); float_lit 3 (-2); float_lit (-3) (-2) ].

(** 512 stereo frames. *)
Definition block_512 : list float := replicate 1024 (float_lit 1 (-2)).

(** Parameters whose quality differs from the default one, and a processor
    whose stretch processor stores them. *)
Definition fast_parameters : Parameters :=
  {| tempoRatio := double_lit 1 0;
     pitchSemitones := double_lit 0 0;
     quality := {| formantPreservation := float_lit 3 (-2);
                   transientSensitivity := float_lit 1 (-2);
                   highQuality := false |} |}.

Definition fast_placeholder : @LCP.t loopback :=
  {| LCP.processor_ :=
       {| TSPP.sampleRate_ := double_lit 48000 0;
          TSPP.channelCount_ := 2;
          TSPP.parameters_ := fast_parameters;
          TSPP.engine_ := TSPP.simulatedLatencySamples_ 480 |};
     LCP.controls_ := LCP.Controls_default;
     LCP.pendingLatencySamples_ := 480;
     LCP.channelCount_ := 2 |}.

(** ** Further notions used by the statements *)

Section More_statements.
Context `{RubberBand}.

(** The engine slot is filled: the processor went through its constructor. *)
Definition configured (tp : TSPP.t) : Prop :=
  TSPP.engine_ tp ≠ TSPP.processor_ None.

(** The states a latency-compensated processor goes through: construction
    in the given build for the given sample rate and channel count, then
    any sequence of [updateControls] and [processBlock] calls. *)
Inductive reachable (have_rubberband : bool) (sampleRate : double) (channelCount : Z)
  : LCP.t → Prop :=
| reachable_new p :
    LCP.new have_rubberband sampleRate channelCount = Some p →
    reachable have_rubberband sampleRate channelCount p
| reachable_update c p p' :
    reachable have_rubberband sampleRate channelCount p →
    LCP.updateControls c p = Some p' →
    reachable have_rubberband sampleRate channelCount p'
| reachable_block input frames output0 produced output p p' :
    reachable have_rubberband sampleRate channelCount p →
    LCP.processBlock input frames output0 p = Some (produced, output, p') →
    reachable have_rubberband sampleRate channelCount p'.

(** A library that hands back, channel by channel, exactly the frames it
    was given in the same call (there being at least one channel, of
    [frames] samples each). *)
Definition transparent_library : Prop :=
  ∀ channels frames final s,
    channels ≠ [] →
    Forall (λ c, size c = frames) channels →
    let s' := stretcher_process channels frames final s in
    stretcher_available s' = frames
    ∧ (retrieve frames s').1 = channels.

End More_statements.

(** ** [main.cpp]: the audio callback and the command line *)

Module Main.

Record CallbackData := {
  framesRendered : Z;
  channels : Z
}.

Definition CallbackData_default : CallbackData :=
  {| framesRendered := 0; channels := 2 |}.

(** [PaStreamCallbackResult] of [portaudio.h]. *)
Inductive PaStreamCallbackResult := paContinue | paComplete | paAbort.

(** [std::fill(first, first + n, value)] on the buffer a pointer gives
    access to; [None] when the range leaves the buffer. *)
Definition fill (buf : list float) (n : Z) (value : float) : option (list float) :=
  if decide (0 <= n ∧ n <= size buf)
  then Some (replicate (Z.to_nat n) value ++ drop (Z.to_nat n) buf)
  else None.

(** [audioCallback]: [output] is the buffer behind the [void *], [userData]
    the [CallbackData] behind the user pointer, if that is not null; the
    input pointer, the time info and the status flags are not looked at.
    [unsigned long] and [std::uint64_t] are 64 bits wide, as [size_t] is. *)
Definition audioCallback (output : list float) (framesPerBuffer : Z)
    (userData : option CallbackData)
    : option (PaStreamCallbackResult * list float * option CallbackData) :=
  let callbackData := userData in
  let channels := match callbackData with Some d => channels d | None => 2 end in
  let samples := size_mul framesPerBuffer (to_size_t channels) in
  out ← fill output samples zero_sample;
  let callbackData :=
    match callbackData with
    | Some d => Some {| framesRendered := size_add (framesRendered d) framesPerBuffer;
                        channels := Main.channels d |}
    | None => None
    end in
  Some (paContinue, out, callbackData).

(** A stream calling the callback once per buffer: each call comes with
    the buffer to fill and its frame count. *)
Fixpoint callbacks (calls : list (list float * Z)) (userData : option CallbackData)
    : option (list (PaStreamCallbackResult * list float) * option CallbackData) :=
  match calls with
  | [] => Some ([], userData)
  | (output, framesPerBuffer) :: calls =>
      '(result, out, userData) ← audioCallback output framesPerBuffer userData;
      '(results, userData) ← callbacks calls userData;
      Some ((result, out) :: results, userData)
  end.

Record SessionConfig := {
  sampleRate : double;
  framesPerBuffer : Z;
  durationSeconds : double;
  session_channels : Z
}.

Definition SessionConfig_default : SessionConfig :=
  {| sampleRate := double_lit 48000 0;
     framesPerBuffer := 128;
     durationSeconds := double_lit 2 0;
     session_channels := 2 |}.

(** [std::stoul], [std::stod] and [std::stoi] belong to the standard
    library: they are a parameter.  [None] stands for the exception they
    throw on a string they cannot convert. *)
Class Conversions := {
  stoul : string → option Z;
  stod : string → option double;
  stoi : string → option Z
}.

(** How [parseArgs] ends: it returns, or it leaves the program through
    [std::exit] after writing to [std::cout], or a conversion throws. *)
Inductive Outcome (A : Type) :=
| Returns (a : A)
| Exits (status : Z) (written : string)
| Throws.
Arguments Returns {A} a.
Arguments Exits {A} status written.
Arguments Throws {A}.

Definition newline : string := String (Ascii.ascii_of_nat 10) EmptyString.

Definition usage : string :=
  String.concat newline
    [ "Usage: deejay_audio [options]";
      "  --frames, -f            Frames per buffer (default: 128)";
      "  --sample-rate, -r       Sample rate (default: 48000)";
      "  --duration-seconds, -d  Run time in seconds (default: 2)";
      "  --channels              Number of output channels (default: 2)";
      "  --help, -h              Show this message";
      "" ]%string.

(** The loop of [parseArgs] from position [i] on: [args] holds
    [argv[i]], [argv[i + 1]], ...; the test [i + 1 < argc] is [rest ≠ []]. *)
Fixpoint parseArgs_loop `{Conversions} (args : list string) (config : SessionConfig)
    : Outcome SessionConfig :=
  match args with
  | [] => Returns config
  | arg :: rest =>
      match rest with
      | value :: rest' =>
          if String.eqb arg "--frames" || String.eqb arg "-f" then
            match stoul value with
            | Some n =>
                parseArgs_loop rest'
                  {| sampleRate := sampleRate config;
                     framesPerBuffer := to_size_t n;
                     durationSeconds := durationSeconds config;
                     session_channels := session_channels config |}
            | None => Throws
            end
          else if String.eqb arg "--sample-rate" || String.eqb arg "-r" then
            match stod value with
            | Some d =>
                parseArgs_loop rest'
                  {| sampleRate := d;
                     framesPerBuffer := framesPerBuffer config;
                     durationSeconds := durationSeconds config;
                     session_channels := session_channels config |}
            | None => Throws
            end
          else if String.eqb arg "--duration-seconds" || String.eqb arg "-d" then
            match stod value with
            | Some d =>
                parseArgs_loop rest'
                  {| sampleRate := sampleRate config;
                     framesPerBuffer := framesPerBuffer config;
                     durationSeconds := d;
                     session_channels := session_channels config |}
            | None => Throws
            end
          else if String.eqb arg "--channels" then
            match stoi value with
            | Some n =>
                parseArgs_loop rest'
                  {| sampleRate := sampleRate config;
                     framesPerBuffer := framesPerBuffer config;
                     durationSeconds := durationSeconds config;
                     session_channels := n |}
            | None => Throws
            end
          else if String.eqb arg "--help" || String.eqb arg "-h" then
            Exits 0 usage
          else parseArgs_loop rest config
      | [] =>
          if String.eqb arg "--help" || String.eqb arg "-h" then Exits 0 usage
          else Returns config
      end
  end.

(** [parseArgs(argc, argv)]: [argv] is the argument vector, [argv[0]]
    included; the loop starts at index 1. *)
Definition parseArgs `{Conversions} (argv : list string) : Outcome SessionConfig :=
  parseArgs_loop (drop 1 argv) SessionConfig_default.

End Main.

(** The tokens [parseArgs] gives a meaning to. *)
Definition value_flags : list string :=
  [ "--frames"; "-f"; "--sample-rate"; "-r"; "--duration-seconds"; "-d"; "--channels" ]%string.

Definition help_flags : list string := [ "--help"; "-h" ]%string.

(** An argument list in which every flag that takes a value is followed
    by one: flags with their value, and any other token. *)
Inductive well_paired : list string → Prop :=
| well_paired_nil : well_paired []
| well_paired_flag flag value args :
    flag ∈ value_flags → well_paired args → well_paired (flag :: value :: args)
| well_paired_other arg args :
    arg ∉ value_flags → well_paired args → well_paired (arg :: args).



(** The frames a run of callbacks was asked for. *)
Definition frames_requested (calls : list (list float * Z)) : Z :=
  foldr (λ call acc, call.2 + acc) 0 calls.

(** Stand-ins for the conversions, for running [parseArgs] on concrete
    arguments: they accept plain decimal digits only. *)
Fixpoint decimal_digits (s : string) (acc : Z) : option Z :=
  match s with
  | EmptyString => Some acc
  | String c s =>
      let d := Z.of_nat (Ascii.nat_of_ascii c) - 48 in
      if (0 <=? d) && (d <=? 9) then decimal_digits s (10 * acc + d) else None
  end.

Definition plain_decimal (s : string) : option Z :=
  match s with
  | EmptyString => None
  | _ => decimal_digits s 0
  end.

Definition plain_conversions : Main.Conversions :=
  {| Main.stoul := plain_decimal;
     Main.stod := λ s, (λ n, double_lit n 0) <$> plain_decimal s;
     Main.stoi := plain_decimal |}.

(** * Properties *)

(** ** Machine arithmetic *)

Lemma to_size_t_is_size_t z : is_size_t (to_size_t z).
Proof.
  unfold is_size_t, to_size_t, SIZE_MAX.
  pose proof (Z.mod_pos_bound z (2 ^ 64)). lia.
Qed.

Lemma to_size_t_id z : is_size_t z → to_size_t z = z.
Proof.
  unfold is_size_t, to_size_t, SIZE_MAX. intros Hz.
  apply Z.mod_small. lia.
Qed.

Lemma size_add_to_size_t_r a b : size_add a (to_size_t b) = to_size_t (a + b).
Proof. unfold size_add, to_size_t. apply Zplus_mod_idemp_r. Qed.

Lemma size_add_exact a b :
  0 <= a → 0 <= b → a + b <= SIZE_MAX → size_add a b = a + b.
Proof. intros. apply to_size_t_id. unfold is_size_t. lia. Qed.

Lemma size_sub_exact a b : is_size_t a → 0 <= b <= a → size_sub a b = a - b.
Proof. unfold is_size_t. intros. apply to_size_t_id. unfold is_size_t. lia. Qed.

(** The product the code computes is the plain product whenever that is a
    [size_t] and the channel count is not negative. *)
Lemma size_mul_exact n channels :
  0 <= n → 0 <= channels → n * channels <= SIZE_MAX →
  size_mul n (to_size_t channels) = n * channels.
Proof.
  intros Hn Hc Hle. unfold size_mul.
  destruct (decide (n = 0)) as [->|Hn0]; [done|].
  rewrite (to_size_t_id channels); [|unfold is_size_t; nia].
  apply to_size_t_id. unfold is_size_t. nia.
Qed.

Lemma size_mul_is_size_t a b : is_size_t (size_mul a b).
Proof. apply to_size_t_is_size_t. Qed.

(** ** Buffers *)

Lemma size_nonneg v : 0 <= size v.
Proof. unfold size. lia. Qed.

Lemma read_size buf off n data : read buf off n = Some data → size data = n.
Proof.
  unfold read, size. case_decide; [|done]. intros [= <-].
  rewrite length_take, length_drop. lia.
Qed.

Lemma read_0 buf n :
  0 <= n <= size buf → read buf 0 n = Some (take (Z.to_nat n) buf).
Proof.
  unfold read, size. intros Hn. rewrite decide_True by lia. by rewrite drop_0.
Qed.

Lemma write_size buf off data buf' : write buf off data = Some buf' → size buf' = size buf.
Proof.
  unfold write, size. case_decide; [|done]. intros [= <-].
  by rewrite length_inserts.
Qed.

Lemma size_vresize n value v : 0 <= n → size (vresize n value v) = n.
Proof. unfold size, vresize. rewrite length_resize. lia. Qed.

(** Growing a vector appends copies of [value]. *)
Lemma vresize_grow n value v :
  size v <= n → vresize n value v = v ++ replicate (Z.to_nat (n - size v)) value.
Proof.
  unfold vresize, size. intros Hn.
  rewrite resize_ge by lia. do 2 f_equal. lia.
Qed.

Lemma size_app v w : size (v ++ w) = size v + size w.
Proof. unfold size. rewrite length_app. lia. Qed.

Lemma size_replicate n value : 0 <= n → size (replicate (Z.to_nat n) value) = n.
Proof. unfold size. rewrite length_replicate. lia. Qed.

Lemma size_of_double_is_size_t d n : size_of_double d = Some n → is_size_t n.
Proof.
  unfold size_of_double, is_size_t. destruct d as [s|s| |s m e]; try done.
  - intros [= <-]. unfold SIZE_MAX. lia.
  - cbv zeta. case_match eqn:Hrange; [|done]. intros [= <-].
    apply andb_prop in Hrange as [? ?]. lia.
Qed.

(** ** Conversions to double are exact *)

Lemma digits2_pos_shift d m :
  Zpos (digits2_pos (Pos.iter xO m d)) = Zpos (digits2_pos m) + Zpos d.
Proof.
  induction d as [|d IH] using Pos.peano_ind.
  - simpl. lia.
  - rewrite Pos.iter_succ. simpl. lia.
Qed.

Lemma shift_value d m : Zpos (Pos.iter xO m d) = Zpos m * 2 ^ Zpos d.
Proof.
  induction d as [|d IH] using Pos.peano_ind.
  - simpl. lia.
  - rewrite Pos.iter_succ, Pos2Z.inj_succ, Z.pow_succ_r by lia.
    rewrite Pos2Z.inj_xO, IH. lia.
Qed.

Lemma digits2_pos_bound m k : 0 <= k → Zpos m < 2 ^ k → Zpos (digits2_pos m) <= k.
Proof.
  revert k. induction m as [m IH|m IH|]; intros k Hk Hm.
  - assert (k ≠ 0) by (intros ->; simpl in Hm; lia).
    replace k with (Z.succ (k - 1)) in Hm by lia. rewrite Z.pow_succ_r in Hm by lia.
    specialize (IH (k - 1)). simpl. lia.
  - assert (k ≠ 0) by (intros ->; simpl in Hm; lia).
    replace k with (Z.succ (k - 1)) in Hm by lia. rewrite Z.pow_succ_r in Hm by lia.
    specialize (IH (k - 1)). simpl. lia.
  - assert (k ≠ 0) by (intros ->; simpl in Hm; lia). simpl. lia.
Qed.

(** A mantissa of 53 digits with an exponent in range is not rounded. *)
Lemma binary_round_aux_full s m e :
  Zpos (digits2_pos m) = 53 → -1074 <= e <= 971 →
  binary_round_aux 53 1024 s (Zpos m) e loc_Exact = S754_finite s m e.
Proof.
  intros Hd He.
  assert (fexp 53 1024 (Zpos (digits2_pos m) + e) - e = 0) as Hshift.
  { unfold fexp, emin. rewrite Hd. lia. }
  unfold binary_round_aux, shr_fexp. simpl Zdigits2. rewrite Hshift. simpl.
  rewrite Hshift. simpl.
  by replace (e <=? 1024 - 53) with true by (symmetry; apply Z.leb_le; lia).
Qed.

(** Rounding to double a number of at most 53 digits whose exponent is in
    the normal range only shifts the mantissa. *)
Lemma binary_round_exact s m e :
  Zpos (digits2_pos m) <= 53 →
  -1074 <= Zpos (digits2_pos m) + e - 53 <= 971 →
  ∃ m' e',
    binary_round 53 1024 s m e = S754_finite s m' e'
    ∧ e' <= e ∧ Zpos m' = Zpos m * 2 ^ (e - e').
Proof.
  intros Hd He. unfold binary_round, shl_align.
  assert (fexp 53 1024 (Zpos (digits2_pos m) + e) = Zpos (digits2_pos m) + e - 53) as ->.
  { unfold fexp, emin. lia. }
  destruct (Zpos (digits2_pos m) + e - 53 - e) as [|k|k] eqn:Hk; [|lia|].
  - exists m, e. rewrite binary_round_aux_full by lia.
    rewrite Z.sub_diag. simpl. split_and!; [done|lia|lia].
  - eexists _, _. rewrite binary_round_aux_full.
    + split_and!; [done|lia|]. rewrite shift_value. f_equal. f_equal. lia.
    + rewrite digits2_pos_shift. lia.
    + lia.
Qed.

(** The conversion of a binary32 value to double keeps its value. *)
Lemma double_of_float_exact f :
  valid_binary 24 128 f = true → same_value (double_of_float f) f.
Proof.
  destruct f as [s|s| |s m e]; try done. simpl.
  unfold bounded, canonical_mantissa, fexp, emin. intros Hvalid.
  apply andb_prop in Hvalid as [Hcanon Hmax].
  apply Z.eqb_eq in Hcanon. apply Z.leb_le in Hmax.
  destruct (binary_round_exact s m e ltac:(lia) ltac:(lia))
    as (m' & e' & Hround & He' & Hm').
  assert (binary_normalize 53 1024 (cond_Zopp s (Zpos m)) e s = S754_finite s m' e') as ->.
  { by destruct s. }
  simpl. split; [done|].
  rewrite Z.min_l, Z.sub_diag by lia. simpl. lia.
Qed.

(** The conversion of an [int] to double keeps its value. *)
Lemma double_of_int_exact i :
  is_int i →
  match double_of_int i with
  | S754_zero s => i = 0 ∧ s = false
  | S754_finite s m e => e <= 0 ∧ i * 2 ^ (- e) = cond_Zopp s (Zpos m)
  | _ => False
  end.
Proof.
  unfold is_int, double_of_int. intros Hi.
  destruct i as [|m|m]; [done| |]; simpl.
  - pose proof (digits2_pos_bound m 31).
    destruct (binary_round_exact false m 0 ltac:(lia) ltac:(lia))
      as (m' & e' & -> & He' & Hm').
    simpl. split; [done|]. by rewrite Hm'.
  - pose proof (digits2_pos_bound m 32).
    destruct (binary_round_exact true m 0 ltac:(lia) ltac:(lia))
      as (m' & e' & -> & He' & Hm').
    simpl. split; [done|]. rewrite Hm'.
    change (Z.neg m) with (- Z.pos m). by rewrite Z.mul_opp_l.
Qed.

Section Engine_facts.
Context `{RubberBand}.

(** ** The adapter *)

Lemma store_channels_size chs available written output output' :
  RubberBandAdapter.store_channels chs available written output = Some output' →
  size output' = size output.
Proof.
  revert output. induction chs as [|ch chs IH]; intros output Hstore; simpl in Hstore.
  - by injection Hstore as ->.
  - destruct (write _ _ _) as [output1|] eqn:Hwrite; [|done]. simpl in Hstore.
    rewrite (IH _ Hstore). by eapply write_size.
Qed.

(** The adapter hands back [available * channelCount_] samples, the
    product being the one the code computes. *)
Lemma adapter_process_size input frames output a produced output' a' :
  RubberBandAdapter.process input frames output a = Some (produced, output', a') →
  size output' = size_mul produced (to_size_t (RubberBandAdapter.channelCount_ a))
  ∧ is_size_t produced
  ∧ RubberBandAdapter.channelCount_ a' = RubberBandAdapter.channelCount_ a.
Proof.
  unfold RubberBandAdapter.process. intros Hp.
  case_match; [done|].
  destruct (mapM _ _) as [channels|]; [|done]. simpl in Hp.
  destruct (retrieve _ _) as [written s]. 
  destruct (RubberBandAdapter.store_channels _ _ _ _) as [stored|] eqn:Hstore; [|done].
  simpl in Hp. injection Hp as <- <- <-.
  apply store_channels_size in Hstore. rewrite Hstore. split_and!.
  - apply size_vresize. apply size_mul_is_size_t.
  - apply to_size_t_is_size_t.
  - done.
Qed.

(** ** The stretch processor *)

Lemma configureProcessor_consistent tp tp' :
  TSPP.configureProcessor tp = Some tp' →
  engine_consistent tp'
  ∧ TSPP.sampleRate_ tp' = TSPP.sampleRate_ tp
  ∧ TSPP.channelCount_ tp' = TSPP.channelCount_ tp
  ∧ TSPP.parameters_ tp' = TSPP.parameters_ tp
  ∧ (is_placeholder tp ↔ is_placeholder tp').
Proof.
  unfold TSPP.configureProcessor, engine_consistent, is_placeholder.
  destruct (TSPP.engine_ tp) as [a|n] eqn:He.
  - intros [= <-]. by rewrite ?He.
  - destruct (TSPP.placeholderLatency _) as [n'|] eqn:Hlat; [|done].
    intros [= <-]. by rewrite ?He.
Qed.

Lemma new_consistent have_rubberband sampleRate channelCount defaults tp :
  TSPP.new have_rubberband sampleRate channelCount defaults = Some tp →
  engine_consistent tp
  ∧ TSPP.sampleRate_ tp = sampleRate
  ∧ TSPP.channelCount_ tp = channelCount
  ∧ TSPP.parameters_ tp = defaults.
Proof.
  unfold TSPP.new. intros Hnew.
  apply configureProcessor_consistent in Hnew as (? & ? & ? & ? & _). done.
Qed.

Lemma setParameters_consistent parameters tp tp' :
  TSPP.setParameters parameters tp = Some tp' →
  engine_consistent tp →
  engine_consistent tp'
  ∧ TSPP.sampleRate_ tp' = TSPP.sampleRate_ tp
  ∧ TSPP.channelCount_ tp' = TSPP.channelCount_ tp
  ∧ TSPP.parameters_ tp' = parameters.
Proof.
  unfold TSPP.setParameters, engine_consistent. simpl.
  destruct (TSPP.engine_ tp) as [[a|]|n] eqn:He.
  - intros [= <-] Hc. by simpl.
  - intros [= <-] Hc. simpl. by rewrite ?He.
  - destruct (TSPP.placeholderLatency _) as [n'|] eqn:Hlat; [|done].
    intros [= <-] Hc. by simpl.
Qed.

(** The placeholder engine keeps a latency that depends on the sample rate
    alone, so setting parameters on a consistent processor always returns. *)
Lemma setParameters_returns parameters tp :
  engine_consistent tp → is_Some (TSPP.setParameters parameters tp).
Proof.
  unfold TSPP.setParameters, engine_consistent. simpl.
  destruct (TSPP.engine_ tp) as [[a|]|n]; intros Hc; [by eexists..|].
  rewrite Hc. by eexists.
Qed.

Lemma getLatencySamples_is_size_t tp :
  engine_consistent tp → is_size_t (TSPP.getLatencySamples tp).
Proof.
  unfold engine_consistent, TSPP.getLatencySamples.
  destruct (TSPP.engine_ tp) as [[a|]|n]; intros Hc.
  - apply to_size_t_is_size_t.
  - unfold is_size_t, SIZE_MAX. lia.
  - by eapply size_of_double_is_size_t.
Qed.

(** Whatever the build, [process] hands back [produced * channelCount_]
    samples, the product being the one the code computes. *)
Lemma process_size input frames output tp produced processed tp' :
  TSPP.process input frames output tp = Some (produced, processed, tp') →
  engine_consistent tp →
  size processed = size_mul produced (to_size_t (TSPP.channelCount_ tp))
  ∧ engine_consistent tp'
  ∧ TSPP.channelCount_ tp' = TSPP.channelCount_ tp.
Proof.
  unfold TSPP.process. intros Hp Hc.
  destruct (TSPP.engine_ tp) as [a|n] eqn:He.
  - assert (∃ tp1 a1, (if a is None then TSPP.configureProcessor tp else Some tp) = Some tp1
                      ∧ TSPP.engine_ tp1 = TSPP.processor_ (Some a1)
                      ∧ RubberBandAdapter.channelCount_ a1 = TSPP.channelCount_ tp
                      ∧ TSPP.channelCount_ tp1 = TSPP.channelCount_ tp)
      as (tp1 & a1 & Htp1 & He1 & Hch & Hch1).
    { destruct a as [a|].
      - exists tp, a. unfold engine_consistent in Hc. by rewrite He in Hc |- *.
      - unfold TSPP.configureProcessor. rewrite He. by eexists _, _. }
    rewrite Htp1 in Hp. simpl in Hp. rewrite He1 in Hp.
    destruct (RubberBandAdapter.process _ _ _ _) as [[[n out] a2]|] eqn:Ha; [|done].
    simpl in Hp. injection Hp as <- <- <-.
    apply adapter_process_size in Ha as (Hsize & _ & Hch2).
    unfold engine_consistent. simpl. rewrite Hsize, Hch. split_and!; congruence.
  - destruct (read _ _ _) as [data|] eqn:Hread; [|done].
    simpl in Hp. injection Hp as <- <- <-.
    by apply read_size in Hread.
Qed.

(** The samples of one call are a [size_t] many. *)
Lemma process_size_bound input frames output tp produced processed tp' :
  TSPP.process input frames output tp = Some (produced, processed, tp') →
  is_size_t (size processed).
Proof.
  unfold TSPP.process. intros Hp.
  destruct (TSPP.engine_ tp) as [a|n].
  - destruct (if a is None then _ else _) as [tp1|]; [|done]. simpl in Hp.
    destruct (TSPP.engine_ tp1) as [[a1|]|]; try done.
    destruct (RubberBandAdapter.process _ _ _ _) as [[[n out] a2]|] eqn:Ha; [|done].
    simpl in Hp. injection Hp as <- <- <-.
    apply adapter_process_size in Ha as (-> & _). apply size_mul_is_size_t.
  - destruct (read _ _ _) as [data|] eqn:Hread; [|done].
    simpl in Hp. injection Hp as <- <- <-.
    apply read_size in Hread as ->. apply size_mul_is_size_t.
Qed.

End Engine_facts.

Section Latency_facts.
Context `{RubberBand}.

(** ** The latency-compensated processor *)

(** The total latency is the [size_t] sum of the engine's latency and the
    manual latency clamped at zero. *)
Lemma totalLatencySamples_eq p :
  LCP.totalLatencySamples p =
  to_size_t (TSPP.getLatencySamples (LCP.processor_ p)
             + Z.max 0 (LCP.manualLatencySamples (LCP.controls_ p))).
Proof. unfold LCP.totalLatencySamples. apply size_add_to_size_t_r. Qed.

Lemma new_consistent_processor have_rubberband sampleRate channelCount p :
  LCP.new have_rubberband sampleRate channelCount = Some p →
  consistent p
  ∧ LCP.controls_ p = LCP.Controls_default
  ∧ LCP.channelCount_ p = channelCount
  ∧ LCP.pendingLatencySamples_ p = LCP.totalLatencySamples p.
Proof.
  unfold LCP.new. intros Hnew.
  destruct (TSPP.new _ _ _ _) as [tp|] eqn:Htp; [|done].
  simpl in Hnew. injection Hnew as <-.
  apply new_consistent in Htp as (Hc & _ & Hch & _).
  unfold consistent. simpl. split_and!; try done.
  rewrite totalLatencySamples_eq. apply to_size_t_is_size_t.
Qed.

Lemma updateControls_consistent controls p p' :
  LCP.updateControls controls p = Some p' →
  consistent p →
  consistent p'.
Proof.
  unfold LCP.updateControls, consistent. intros Hupd (Hc & Hch & _).
  destruct (TSPP.setParameters _ _) as [tp|] eqn:Htp; [|done].
  simpl in Hupd. injection Hupd as <-.
  apply setParameters_consistent in Htp as (Hc' & _ & Hch' & _); [|done].
  simpl. split_and!; [done|congruence|].
  rewrite totalLatencySamples_eq. apply to_size_t_is_size_t.
Qed.

Lemma updateControls_returns controls p :
  consistent p → is_Some (LCP.updateControls controls p).
Proof.
  unfold LCP.updateControls. intros (Hc & _).
  destruct (setParameters_returns
              (Build_Parameters (LCP.tempoRatio controls) (LCP.pitchSemitones controls)
                                StretchQuality_default)
              (LCP.processor_ p) Hc) as [tp ->].
  by eexists.
Qed.

(** What one [processBlock] call does, given what the stretch processor
    hands back: [take] zeros, the processed samples and, behind them, the
    part of the pending count the prefix did not absorb.  The sizes must
    not wrap in the [output.size() + pendingLatencySamples_] of the flush;
    they cannot when the prefix absorbs the whole count. *)
Lemma processBlock_eq input frames output0 p produced processed tp' :
  TSPP.process input frames [] (LCP.processor_ p) = Some (produced, processed, tp') →
  is_size_t (LCP.pendingLatencySamples_ p) →
  let pending := LCP.pendingLatencySamples_ p in
  let taken := Z.min pending (size_mul produced (to_size_t (LCP.channelCount_ p))) in
  (pending = taken ∨ pending + size processed <= SIZE_MAX) →
  LCP.processBlock input frames output0 p =
  Some (produced,
        replicate (Z.to_nat taken) zero_sample ++ processed
          ++ replicate (Z.to_nat (pending - taken)) zero_sample,
        {| LCP.processor_ := tp';
           LCP.controls_ := LCP.controls_ p;
           LCP.pendingLatencySamples_ := 0;
           LCP.channelCount_ := LCP.channelCount_ p |}).
Proof.
  intros Hproc Hpend pending taken Hfit.
  unfold LCP.processBlock, vclear. rewrite Hproc. simpl.
  fold pending. fold taken.
  pose proof (size_mul_is_size_t produced (to_size_t (LCP.channelCount_ p))) as Hcap.
  pose proof (size_nonneg processed) as Hsz.
  unfold is_size_t in Hpend, Hcap. fold pending in Hpend.
  assert (0 <= taken <= pending) as Htaken by (unfold taken; lia).
  assert (∀ v, size (replicate (Z.to_nat taken) zero_sample ++ v) = taken + size v) as Hout.
  { intros v. rewrite size_app, size_replicate; lia. }
  assert (vresize taken zero_sample [] = replicate (Z.to_nat taken) zero_sample) as Hprefix.
  { unfold vresize. apply resize_nil. }
  destruct (0 <? taken) eqn:Hpos.
  - rewrite Hprefix, (size_sub_exact pending taken) by (unfold is_size_t; lia).
    destruct (0 <? pending - taken) eqn:Hrest.
    + do 3 f_equal.
      rewrite Hout, size_add_exact by lia.
      rewrite vresize_grow by (rewrite Hout; lia).
      rewrite Hout, <- app_assoc. do 3 f_equal. lia.
    + assert (pending - taken = 0) as -> by lia. simpl.
      by rewrite !app_nil_r.
  - assert (taken = 0) as Htaken0 by lia. rewrite Htaken0 in *. simpl.
    rewrite Z.sub_0_r.
    destruct (0 <? pending) eqn:Hrest.
    + do 3 f_equal.
      rewrite size_add_exact by lia.
      rewrite vresize_grow by lia. do 2 f_equal. lia.
    + assert (pending = 0) as -> by lia. simpl.
      by rewrite !app_nil_r.
Qed.

(** [processBlock] returns whenever the stretch processor does, with the
    same frame count, and leaves nothing pending. *)
Lemma processBlock_returns input frames output0 p produced processed tp' :
  TSPP.process input frames [] (LCP.processor_ p) = Some (produced, processed, tp') →
  is_size_t (LCP.pendingLatencySamples_ p) →
  ∃ output,
    LCP.processBlock input frames output0 p =
    Some (produced, output,
          {| LCP.processor_ := tp';
             LCP.controls_ := LCP.controls_ p;
             LCP.pendingLatencySamples_ := 0;
             LCP.channelCount_ := LCP.channelCount_ p |}).
Proof.
  intros Hproc Hpend.
  unfold LCP.processBlock, vclear. rewrite Hproc. simpl.
  pose proof (size_mul_is_size_t produced (to_size_t (LCP.channelCount_ p))) as Hcap.
  unfold is_size_t in Hpend, Hcap.
  set (pending := LCP.pendingLatencySamples_ p) in *.
  set (taken := Z.min pending _).
  assert (0 <= taken <= pending) as Htaken by (unfold taken; lia).
  destruct (0 <? taken) eqn:Hpos.
  - rewrite (size_sub_exact pending taken) by (unfold is_size_t; lia).
    destruct (0 <? pending - taken) eqn:Hrest; [by eexists|].
    assert (pending - taken = 0) as -> by lia. by eexists.
  - destruct (0 <? pending) eqn:Hrest; [by eexists|].
    assert (pending = 0) as -> by lia. by eexists.
Qed.

(** The incoming contents of [output] play no part: the vector is cleared. *)
Lemma processBlock_clears input frames output0 p :
  LCP.processBlock input frames output0 p = LCP.processBlock input frames [] p.
Proof. done. Qed.

Lemma processBlock_inv input frames output0 p produced output p' :
  LCP.processBlock input frames output0 p = Some (produced, output, p') →
  ∃ processed,
    TSPP.process input frames [] (LCP.processor_ p)
    = Some (produced, processed, LCP.processor_ p').
Proof.
  unfold LCP.processBlock. intros Hpb.
  destruct (TSPP.process _ _ _ _) as [[[n processed] tp]|]; [|done].
  simpl in Hpb. exists processed.
  repeat case_match; simplify_eq; done.
Qed.

Lemma processBlock_consistent input frames output0 p produced output p' :
  LCP.processBlock input frames output0 p = Some (produced, output, p') →
  consistent p →
  consistent p' ∧ LCP.pendingLatencySamples_ p' = 0.
Proof.
  intros Hpb (Hc & Hch & Hpend).
  destruct (processBlock_inv _ _ _ _ _ _ _ Hpb) as [processed Hproc].
  destruct (processBlock_returns input frames output0 p _ _ _ Hproc Hpend) as [out Hret].
  rewrite Hret in Hpb. injection Hpb as <- <-.
  apply process_size in Hproc as (_ & Hc' & Hch'); [|done].
  unfold consistent, is_size_t, SIZE_MAX. simpl. split_and!; try done; lia.
Qed.

End Latency_facts.

Section Claims.
Context `{RubberBand}.

Lemma setParameters_latency_is_size_t parameters tp tp' :
  TSPP.setParameters parameters tp = Some tp' →
  is_size_t (TSPP.getLatencySamples tp').
Proof.
  unfold TSPP.setParameters, TSPP.getLatencySamples. simpl.
  destruct (TSPP.engine_ tp) as [[a|]|n] eqn:He.
  - intros [= <-]. simpl. apply to_size_t_is_size_t.
  - intros [= <-]. simpl. rewrite ?He. unfold is_size_t, SIZE_MAX. lia.
  - destruct (TSPP.placeholderLatency _) as [n'|] eqn:Hlat; [|done].
    intros [= <-]. simpl. by eapply size_of_double_is_size_t.
Qed.

Lemma primed_inv c p :
  primed c p →
  LCP.controls_ p = c
  ∧ LCP.pendingLatencySamples_ p = LCP.totalLatencySamples p
  ∧ is_size_t (TSPP.getLatencySamples (LCP.processor_ p)).
Proof.
  intros [have_rubberband sampleRate channelCount p1 Hnew|c1 p0 p1 Hupd].
  - apply new_consistent_processor in Hnew as ((Hc & _) & Hctl & _ & Hpend).
    split_and!; [done..|]. by apply getLatencySamples_is_size_t.
  - unfold LCP.updateControls in Hupd.
    destruct (TSPP.setParameters _ _) as [tp|] eqn:Htp; [|done].
    simpl in Hupd. injection Hupd as <-. simpl.
    split_and!; [done..|]. by eapply setParameters_latency_is_size_t.
Qed.

(** C1. Right after construction (where [c] is the default controls) and
    right after [updateControls c] on any state, whatever was still
    pending there, [totalLatencySamples] is the latency the engine reports
    plus [max 0 manualLatencySamples], and the pending counter holds
    exactly that value.  The sum is taken in [size_t]; it is stated here
    for sums that fit, [totalLatencySamples_eq] has the general form. *)
Theorem pending_is_total_latency c p :
  primed c p →
  TSPP.getLatencySamples (LCP.processor_ p) + Z.max 0 (LCP.manualLatencySamples c)
    <= SIZE_MAX →
  LCP.controls_ p = c
  ∧ LCP.totalLatencySamples p =
      TSPP.getLatencySamples (LCP.processor_ p) + Z.max 0 (LCP.manualLatencySamples c)
  ∧ LCP.pendingLatencySamples_ p = LCP.totalLatencySamples p.
Proof.
  intros Hprimed Hfit.
  apply primed_inv in Hprimed as (Hctl & Hpend & Hlat).
  split_and!; [done| |done].
  rewrite totalLatencySamples_eq, Hctl. apply to_size_t_id.
  unfold is_size_t in *. lia.
Qed.

(** Once [setParameters] has returned it returns again, whatever the
    parameters: the placeholder latency depends on the sample rate alone. *)
Lemma setParameters_again parameters parameters' tp tp1 :
  TSPP.setParameters parameters tp = Some tp1 →
  ∃ tp2,
    TSPP.setParameters parameters' tp1 = Some tp2
    ∧ (is_placeholder tp → parameters' = parameters → tp2 = tp1).
Proof.
  unfold TSPP.setParameters, is_placeholder. simpl.
  destruct (TSPP.engine_ tp) as [[a|]|n] eqn:He.
  - intros [= <-]. simpl. by eexists.
  - intros [= <-]. simpl. rewrite ?He. by eexists.
  - destruct (TSPP.placeholderLatency _) as [n'|] eqn:Hlat; [|done].
    intros [= <-]. simpl. rewrite Hlat. simpl. eexists. split; [done|].
    by intros _ ->.
Qed.

(** C6. A second [updateControls] with the same controls returns, and
    primes the counter again with the total latency of the state it
    reaches: nothing is added to the value of the first call.  The two
    values are the same number as soon as the engine reports the same
    latency after both calls; with the placeholder engine it always does,
    and the second call leaves the whole state as it was. *)
Theorem updateControls_idempotent c p p1 :
  LCP.updateControls c p = Some p1 →
  ∃ p2,
    LCP.updateControls c p1 = Some p2
    ∧ LCP.pendingLatencySamples_ p1 = LCP.totalLatencySamples p1
    ∧ LCP.pendingLatencySamples_ p2 = LCP.totalLatencySamples p2
    ∧ (TSPP.getLatencySamples (LCP.processor_ p2)
         = TSPP.getLatencySamples (LCP.processor_ p1) →
       LCP.pendingLatencySamples_ p2 = LCP.pendingLatencySamples_ p1)
    ∧ (is_placeholder (LCP.processor_ p) → p2 = p1).
Proof.
  intros Hupd.
  destruct (primed_inv c p1 (primed_update _ _ _ Hupd)) as (Hctl1 & Hpend1 & _).
  unfold LCP.updateControls in Hupd |- *.
  destruct (TSPP.setParameters _ (LCP.processor_ p)) as [tp1|] eqn:Htp1; [|done].
  simpl in Hupd. injection Hupd as <-. simpl in *.
  destruct (setParameters_again _
              (Build_Parameters (LCP.tempoRatio c) (LCP.pitchSemitones c)
                                StretchQuality_default) _ _ Htp1)
    as (tp2 & -> & Hsame).
  simpl. eexists. split; [done|]. simpl. split_and!; [done..| |].
  - intros Hlat. unfold LCP.totalLatencySamples. simpl. by rewrite Hlat.
  - intros Hph. by rewrite (Hsame Hph eq_refl).
Qed.

(** C10. [updateControls] stores in the stretch processor the tempo ratio
    and the pitch of the given controls together with the default
    [StretchQuality] (0.5, 0.5, true), whatever quality was stored there. *)
Theorem updateControls_resets_quality c p p' :
  LCP.updateControls c p = Some p' →
  TSPP.getParameters (LCP.processor_ p') =
  {| tempoRatio := LCP.tempoRatio c;
     pitchSemitones := LCP.pitchSemitones c;
     quality := {| formantPreservation := S754_finite false 8388608 (-24);
                   transientSensitivity := S754_finite false 8388608 (-24);
                   highQuality := true |} |}.
Proof.
  unfold LCP.updateControls. intros Hupd.
  destruct (TSPP.setParameters _ _) as [tp|] eqn:Htp; [|done].
  simpl in Hupd. injection Hupd as <-. simpl.
  unfold TSPP.setParameters in Htp. simpl in Htp.
  destruct (TSPP.engine_ (LCP.processor_ p)) as [[a|]|n].
  - by injection Htp as <-.
  - by injection Htp as <-.
  - destruct (TSPP.placeholderLatency _); [|done]. by injection Htp as <-.
Qed.

(** C8. In every state [describeEndpoints] lists four descriptors and
    [controlEndpoints] three, and their default values are the stored
    tempo ratio, pitch, formant preservation and transient sensitivity
    (the two floats converted to double), resp. the stored tempo ratio,
    pitch and manual latency (the int converted to double).  Both
    conversions keep the value: [double_of_float_exact] and
    [double_of_int_exact]. *)
Theorem endpoints_mirror_state (tp : TSPP.t) (p : LCP.t) :
  length (TSPP.describeEndpoints tp) = 4%nat
  ∧ defaultValue <$> TSPP.describeEndpoints tp =
      [ tempoRatio (TSPP.parameters_ tp);
        pitchSemitones (TSPP.parameters_ tp);
        double_of_float (formantPreservation (quality (TSPP.parameters_ tp)));
        double_of_float (transientSensitivity (quality (TSPP.parameters_ tp))) ]
  ∧ length (LCP.controlEndpoints p) = 3%nat
  ∧ LCP.defaultValue <$> LCP.controlEndpoints p =
      [ LCP.tempoRatio (LCP.controls_ p);
        LCP.pitchSemitones (LCP.controls_ p);
        double_of_int (LCP.manualLatencySamples (LCP.controls_ p)) ].
Proof. done. Qed.

(** The placeholder engine copies [frames * channelCount_] samples (the
    product as the code computes it) from the caller's buffer. *)
Lemma placeholder_process input frames output tp :
  is_placeholder tp →
  TSPP.process input frames output tp =
  (data ← read input 0 (size_mul frames (to_size_t (TSPP.channelCount_ tp)));
   Some (frames, data, tp)).
Proof.
  unfold is_placeholder, TSPP.process.
  by destruct (TSPP.engine_ tp) as [a|n].
Qed.

(** C7. Without the library, [process] on a buffer that holds the
    [frames * channelCount_] samples it reads returns [frames], hands back
    exactly those samples in their order and leaves the processor as it
    was; what [output] held before is gone.  The product is the one the
    code computes, which is the plain product whenever that is a [size_t]
    and the channel count is not negative. *)
Theorem passthrough_process input frames output tp :
  is_placeholder tp →
  size_mul frames (to_size_t (TSPP.channelCount_ tp)) <= size input →
  TSPP.process input frames output tp =
    Some (frames,
          take (Z.to_nat (size_mul frames (to_size_t (TSPP.channelCount_ tp)))) input,
          tp)
  ∧ (0 <= frames → 0 <= TSPP.channelCount_ tp →
     frames * TSPP.channelCount_ tp <= SIZE_MAX →
     size_mul frames (to_size_t (TSPP.channelCount_ tp)) = frames * TSPP.channelCount_ tp).
Proof.
  intros Hph Hfit. split; [|apply size_mul_exact].
  rewrite placeholder_process by done.
  rewrite read_0; [done|].
  pose proof (size_mul_is_size_t frames (to_size_t (TSPP.channelCount_ tp))) as Hs.
  unfold is_size_t in Hs. lia.
Qed.

Lemma placeholderLatency_zero s : TSPP.placeholderLatency (S754_zero s) = Some 0.
Proof. by destruct s. Qed.

(** C5, as the code has it.  Construction checks nothing: without the
    library, every channel count (zero and negative ones included) and
    every sample rate whose hundredth converts to [size_t] (zero included)
    are stored as given, and the latency and the pending counter are that
    converted value, which is 0 for a sample rate of zero
    ([placeholderLatency_zero]). *)
Theorem construction_unchecked sampleRate channelCount n :
  TSPP.placeholderLatency sampleRate = Some n →
  LCP.new false sampleRate channelCount = Some (placeholder_state sampleRate channelCount n).
Proof.
  intros Hlat. unfold LCP.new, TSPP.new, TSPP.configureProcessor. simpl.
  rewrite Hlat. simpl. unfold LCP.refreshPendingLatency, placeholder_state. simpl.
  do 2 f_equal. rewrite totalLatencySamples_eq.
  unfold TSPP.getLatencySamples. simpl. rewrite Z.add_0_r.
  apply to_size_t_id. by eapply size_of_double_is_size_t.
Qed.

Lemma updateControls_channelCount c p p' :
  LCP.updateControls c p = Some p' → LCP.channelCount_ p' = LCP.channelCount_ p.
Proof.
  unfold LCP.updateControls. intros Hupd.
  destruct (TSPP.setParameters _ _) as [tp|]; [|done].
  simpl in Hupd. by injection Hupd as <-.
Qed.

(** C2. [processBlock] returns whenever the stretch processor does, and
    nothing is pending afterwards.  Its output is a prefix of zeros, capped
    at [produced * channelCount] samples, then every processed sample, then
    the rest of the pending count as trailing zeros of the same block (the
    sizes being [size_t] values that do not wrap). *)
Theorem flush_within_call input frames output0 p produced processed tp' :
  TSPP.process input frames [] (LCP.processor_ p) = Some (produced, processed, tp') →
  is_size_t (LCP.pendingLatencySamples_ p) →
  ∃ output p',
    LCP.processBlock input frames output0 p = Some (produced, output, p')
    ∧ LCP.pendingLatencySamples_ p' = 0
    ∧ (LCP.pendingLatencySamples_ p + size processed <= SIZE_MAX →
       let pending := LCP.pendingLatencySamples_ p in
       let taken := Z.min pending (size_mul produced (to_size_t (LCP.channelCount_ p))) in
       output = replicate (Z.to_nat taken) zero_sample ++ processed
                  ++ replicate (Z.to_nat (pending - taken)) zero_sample).
Proof.
  intros Hproc Hpend.
  destruct (processBlock_returns input frames output0 p _ _ _ Hproc Hpend) as [output Hret].
  eexists _, _. split; [exact Hret|]. split; [done|].
  intros Hfit pending taken.
  rewrite (processBlock_eq input frames output0 p _ _ _ Hproc Hpend) in Hret by auto.
  by injection Hret as <-.
Qed.

Lemma process_produced input frames output tp produced processed tp' :
  TSPP.process input frames output tp = Some (produced, processed, tp') →
  is_size_t frames →
  is_size_t produced
  ∧ (is_placeholder tp → produced = frames ∧ tp' = tp).
Proof.
  unfold TSPP.process, is_placeholder. intros Hp Hframes.
  destruct (TSPP.engine_ tp) as [a|n].
  - destruct (if a is None then _ else _) as [tp1|]; [|done]. simpl in Hp.
    destruct (TSPP.engine_ tp1) as [[a1|]|]; try done.
    destruct (RubberBandAdapter.process _ _ _ _) as [[[n out] a2]|] eqn:Ha; [|done].
    simpl in Hp. injection Hp as <- <- <-.
    by apply adapter_process_size in Ha as (_ & ? & _).
  - destruct (read _ _ _) as [data|]; [|done].
    simpl in Hp. by injection Hp as <- <- <-.
Qed.

Lemma size_0_nil (v : list float) : size v = 0 → v = [].
Proof. unfold size. intros Hv. apply length_zero_iff_nil. lia. Qed.

(** A zero-frame call without the library: [pending] zeros and no frame. *)
Lemma zero_frame_block input output0 p :
  is_placeholder (LCP.processor_ p) →
  is_size_t (LCP.pendingLatencySamples_ p) →
  LCP.processBlock input 0 output0 p =
  Some (0, replicate (Z.to_nat (LCP.pendingLatencySamples_ p)) zero_sample,
        {| LCP.processor_ := LCP.processor_ p;
           LCP.controls_ := LCP.controls_ p;
           LCP.pendingLatencySamples_ := 0;
           LCP.channelCount_ := LCP.channelCount_ p |}).
Proof.
  intros Hph Hpend.
  assert (TSPP.process input 0 [] (LCP.processor_ p) = Some (0, [], LCP.processor_ p))
    as Hproc.
  { rewrite placeholder_process by done. unfold size_mul. rewrite Z.mul_0_l.
    by rewrite read_0 by (pose proof (size_nonneg input); done). }
  rewrite (processBlock_eq input 0 output0 p _ _ _ Hproc Hpend).
  - unfold size_mul. rewrite Z.mul_0_l. change (to_size_t 0) with 0.
    unfold is_size_t in Hpend.
    rewrite Z.min_r, Z.sub_0_r by lia. done.
  - right. unfold is_size_t in Hpend. change (size []) with 0. lia.
Qed.

(** C9. The contents [output] had before the call play no part.  After
    the call its length is the pending count before the call plus
    [produced * channelCount]: it holds every processed sample, and zeros
    in front of and behind them that add up to the pending count.  A call
    in which no frame is produced yields the pending zeros alone, and
    without the library a zero-frame call is such a call and returns 0. *)
Theorem output_length input frames output0 p produced processed tp' :
  consistent p →
  is_size_t frames →
  0 <= LCP.channelCount_ p →
  TSPP.process input frames [] (LCP.processor_ p) = Some (produced, processed, tp') →
  LCP.pendingLatencySamples_ p + produced * LCP.channelCount_ p <= SIZE_MAX →
  ∃ output p',
    LCP.processBlock input frames output0 p = Some (produced, output, p')
    ∧ LCP.processBlock input frames [] p = LCP.processBlock input frames output0 p
    ∧ size output = LCP.pendingLatencySamples_ p + produced * LCP.channelCount_ p
    ∧ size processed = produced * LCP.channelCount_ p
    ∧ (∃ front back,
         0 <= front ∧ 0 <= back
         ∧ front + back = LCP.pendingLatencySamples_ p
         ∧ output = replicate (Z.to_nat front) zero_sample ++ processed
                      ++ replicate (Z.to_nat back) zero_sample)
    ∧ (produced = 0 →
       output = replicate (Z.to_nat (LCP.pendingLatencySamples_ p)) zero_sample)
    ∧ (is_placeholder (LCP.processor_ p) →
       LCP.processBlock input 0 output0 p =
       Some (0, replicate (Z.to_nat (LCP.pendingLatencySamples_ p)) zero_sample,
             {| LCP.processor_ := LCP.processor_ p;
                LCP.controls_ := LCP.controls_ p;
                LCP.pendingLatencySamples_ := 0;
                LCP.channelCount_ := LCP.channelCount_ p |})).
Proof.
  intros (Hc & Hch & Hpend) Hframes Hchannels Hproc Hfit.
  destruct (process_produced _ _ _ _ _ _ _ Hproc Hframes) as [Hproduced _].
  destruct (process_size _ _ _ _ _ _ _ Hproc Hc) as (Hsize & _ & _).
  rewrite <- Hch in Hsize.
  unfold is_size_t in Hpend, Hproduced.
  assert (size_mul produced (to_size_t (LCP.channelCount_ p))
          = produced * LCP.channelCount_ p) as Hcap.
  { apply size_mul_exact; nia. }
  rewrite Hcap in Hsize.
  eexists _, _. split.
  { apply (processBlock_eq input frames output0 p _ _ _ Hproc); [done|]. right. lia. }
  cbv zeta. rewrite Hcap.
  set (pending := LCP.pendingLatencySamples_ p) in *.
  set (cap := produced * LCP.channelCount_ p) in *.
  assert (0 <= cap) by (unfold cap; nia).
  split_and!.
  - done.
  - rewrite !size_app, !size_replicate by lia. lia.
  - done.
  - exists (Z.min pending cap), (pending - Z.min pending cap). split_and!; [lia..|done].
  - intros ->. unfold cap in *. rewrite Z.mul_0_l in *.
    rewrite (size_0_nil processed) by done.
    rewrite Z.min_r, Z.sub_0_r by lia. done.
  - intros Hph. by apply zero_frame_block.
Qed.

Lemma traced_call_inv call p b p' :
  traced_call call p = Some (b, p') →
  ∃ tp',
    TSPP.process call.1 call.2 [] (LCP.processor_ p)
    = Some (block_produced b, block_processed b, tp')
    ∧ LCP.processBlock call.1 call.2 [] p = Some (block_produced b, block_output b, p').
Proof.
  unfold traced_call. intros Hcall.
  destruct (TSPP.process _ _ _ _) as [[[n processed] tp]|] eqn:Hproc; [|done].
  simpl in Hcall.
  destruct (LCP.processBlock _ _ _ _) as [[[produced output] p1]|] eqn:Hpb; [|done].
  simpl in Hcall. injection Hcall as <- <-. simpl.
  destruct (processBlock_inv _ _ _ _ _ _ _ Hpb) as [processed' Hproc'].
  rewrite Hproc in Hproc'. injection Hproc' as -> _ _.
  by exists tp.
Qed.

(** With nothing pending a block is the processed samples and nothing else. *)
Lemma drained_block input frames output0 p produced output p' processed tp' :
  LCP.pendingLatencySamples_ p = 0 →
  TSPP.process input frames [] (LCP.processor_ p) = Some (produced, processed, tp') →
  LCP.processBlock input frames output0 p = Some (produced, output, p') →
  output = processed ∧ LCP.pendingLatencySamples_ p' = 0.
Proof.
  intros Hzero Hproc Hpb.
  rewrite (processBlock_eq input frames output0 p _ _ _ Hproc) in Hpb.
  - injection Hpb as <- <-. rewrite Hzero.
    pose proof (size_mul_is_size_t produced (to_size_t (LCP.channelCount_ p))) as Hcap.
    unfold is_size_t in Hcap. rewrite Z.min_l by lia. simpl.
    by rewrite app_nil_r.
  - rewrite Hzero. unfold is_size_t, SIZE_MAX. lia.
  - left. rewrite Hzero.
    pose proof (size_mul_is_size_t produced (to_size_t (LCP.channelCount_ p))) as Hcap.
    unfold is_size_t in Hcap. lia.
Qed.

Lemma drained_blocks calls p bs p' :
  LCP.pendingLatencySamples_ p = 0 →
  processBlocks calls p = Some (bs, p') →
  Forall (λ b, block_output b = block_processed b) bs
  ∧ total_injected bs = 0
  ∧ LCP.pendingLatencySamples_ p' = 0.
Proof.
  revert p bs. induction calls as [|call calls IH]; intros p bs Hzero Hrun; simpl in Hrun.
  - injection Hrun as <- <-. by split_and!.
  - destruct (traced_call call p) as [[b p1]|] eqn:Hcall; [|done]. simpl in Hrun.
    destruct (processBlocks calls p1) as [[bs1 p2]|] eqn:Hrest; [|done].
    simpl in Hrun. injection Hrun as <- <-.
    apply traced_call_inv in Hcall as (tp' & Hproc & Hpb).
    destruct (drained_block _ _ _ _ _ _ _ _ _ Hzero Hproc Hpb) as [Hout Hzero1].
    destruct (IH _ _ Hzero1 Hrest) as (Hall & Hsum & Hzero2).
    split_and!; [by constructor| |done].
    simpl. unfold zeros_injected. rewrite Hout, Hsum. lia.
Qed.

(** C3. Over back-to-back [processBlock] calls the padding adds up to the
    count that was pending before the first of them: that block carries
    all of it, as zeros in front of and behind its processed samples, and
    every later block is its processed samples with no padding.  (The
    sizes of the first block are [size_t] values that do not wrap.) *)
Theorem padding_drains_once call calls p b bs p' :
  is_size_t (LCP.pendingLatencySamples_ p) →
  processBlocks (call :: calls) p = Some (b :: bs, p') →
  LCP.pendingLatencySamples_ p + size (block_processed b) <= SIZE_MAX →
  total_injected (b :: bs) = LCP.pendingLatencySamples_ p
  ∧ (∃ front back,
       0 <= front ∧ 0 <= back
       ∧ front + back = LCP.pendingLatencySamples_ p
       ∧ block_output b = replicate (Z.to_nat front) zero_sample ++ block_processed b
                            ++ replicate (Z.to_nat back) zero_sample)
  ∧ Forall (λ b', block_output b' = block_processed b' ∧ zeros_injected b' = 0) bs
  ∧ LCP.pendingLatencySamples_ p' = 0.
Proof.
  intros Hpend Hrun Hfit. simpl in Hrun.
  destruct (traced_call call p) as [[b1 p1]|] eqn:Hcall; [|done]. simpl in Hrun.
  destruct (processBlocks calls p1) as [[bs1 p2]|] eqn:Hrest; [|done].
  simpl in Hrun. injection Hrun as <- <- <-.
  apply traced_call_inv in Hcall as (tp' & Hproc & Hpb).
  rewrite (processBlock_eq _ _ _ p _ _ _ Hproc Hpend) in Hpb by auto.
  injection Hpb as Hout Hp1.
  assert (LCP.pendingLatencySamples_ p1 = 0) as Hzero by by rewrite <- Hp1.
  destruct (drained_blocks _ _ _ _ Hzero Hrest) as (Hall & Hsum & Hzero2).
  pose proof (size_mul_is_size_t (block_produced b1) (to_size_t (LCP.channelCount_ p)))
    as Hcap.
  unfold is_size_t in Hpend, Hcap.
  set (pending := LCP.pendingLatencySamples_ p) in *.
  set (taken := Z.min pending _) in *.
  split_and!.
  - simpl. rewrite Hsum. unfold zeros_injected. rewrite <- Hout.
    rewrite !size_app, !size_replicate by lia. lia.
  - exists taken, (pending - taken). split_and!; [lia..|done].
  - eapply Forall_impl; [exact Hall|]. intros b' Hb'. split; [done|].
    unfold zeros_injected. rewrite Hb'. lia.
  - done.
Qed.

(** C4. 48 kHz, two channels, no manual latency, an engine that reports
    256 frames: the control update leaves 256 pending, and the block of a
    512-frame call is [zeros] zero samples, [zeros] being the smaller of
    256 and the number of processed samples and so at most 512, then all
    the processed samples, then the rest of the 256. *)
Theorem scenario_latency_256 have_rubberband c p0 p input output0 produced processed tp' :
  LCP.new have_rubberband (double_lit 48000 0) 2 = Some p0 →
  LCP.manualLatencySamples c = 0 →
  LCP.updateControls c p0 = Some p →
  TSPP.getLatencySamples (LCP.processor_ p) = 256 →
  TSPP.process input 512 [] (LCP.processor_ p) = Some (produced, processed, tp') →
  LCP.pendingLatencySamples_ p = 256
  ∧ ∃ zeros p',
      zeros = Z.min 256 (size_mul produced 2)
      ∧ size processed = size_mul produced 2
      ∧ 0 <= zeros <= 256 ∧ zeros <= 256 * 2
      ∧ LCP.processBlock input 512 output0 p =
        Some (produced,
              replicate (Z.to_nat zeros) zero_sample ++ processed
                ++ replicate (Z.to_nat (256 - zeros)) zero_sample,
              p')
      ∧ LCP.pendingLatencySamples_ p' = 0.
Proof.
  intros Hnew Hmanual Hupd Hlat Hproc.
  apply new_consistent_processor in Hnew as (Hc0 & _ & Hch0 & _).
  pose proof (updateControls_consistent _ _ _ Hupd Hc0) as (Hc & Hch & _).
  destruct (primed_inv c p (primed_update _ _ _ Hupd)) as (Hctl & Hpend & _).
  assert (LCP.channelCount_ p = 2) as Hch2.
  { rewrite <- Hch0. by apply updateControls_channelCount in Hupd. }
  assert (LCP.pendingLatencySamples_ p = 256) as H256.
  { rewrite Hpend, totalLatencySamples_eq, Hctl, Hlat, Hmanual. done. }
  split; [done|].
  destruct (process_size _ _ _ _ _ _ _ Hproc Hc) as (Hsize & _ & _).
  rewrite <- Hch, Hch2 in Hsize. change (to_size_t 2) with 2 in Hsize.
  pose proof (size_mul_is_size_t produced 2) as Hcap.
  unfold is_size_t in Hcap.
  eexists _, _. split; [done|]. split; [done|]. split; [lia|]. split; [lia|].
  rewrite (processBlock_eq input 512 output0 p _ _ _ Hproc).
  - cbv zeta. rewrite Hch2, H256. change (to_size_t 2) with 2. split; done.
  - rewrite H256. unfold is_size_t, SIZE_MAX. lia.
  - cbv zeta. rewrite Hch2, Hsize, H256. change (to_size_t 2) with 2.
    unfold SIZE_MAX. lia.
Qed.

End Claims.

(** ** The statements at concrete inputs *)

Lemma fresh_placeholder_new :
  LCP.new false (double_lit 48000 0) 2 = Some fresh_placeholder.
Proof. vm_compute. reflexivity. Qed.

Lemma fresh_rubberband_new :
  LCP.new true (double_lit 48000 0) 2 = Some fresh_rubberband.
Proof. vm_compute. reflexivity. Qed.

Lemma fresh_placeholder_consistent : consistent fresh_placeholder.
Proof.
  unfold consistent, engine_consistent. simpl. split_and!.
  - vm_compute. reflexivity.
  - reflexivity.
  - unfold is_size_t, SIZE_MAX. lia.
Defined.

(** The placeholder processor after [updateControls late_controls]. *)
Lemma pending_is_total_latency_witness :
  ∃ p,
    LCP.updateControls late_controls fresh_placeholder = Some p
    ∧ LCP.controls_ p = late_controls
    ∧ LCP.totalLatencySamples p = 480 + 2000
    ∧ LCP.pendingLatencySamples_ p = LCP.totalLatencySamples p.
Proof.
  eexists. split; [vm_compute; reflexivity|].
  eapply (pending_is_total_latency (H := loopback) late_controls).
  - apply (primed_update late_controls fresh_placeholder). vm_compute. reflexivity.
  - vm_compute. discriminate.
Defined.

(** Two updates in a row with the same controls: 2480 pending both times. *)
Lemma updateControls_idempotent_witness :
  ∃ p1,
    LCP.updateControls late_controls fresh_placeholder = Some p1
    ∧ LCP.pendingLatencySamples_ p1 = 2480
    ∧ ∃ p2,
        LCP.updateControls late_controls p1 = Some p2
        ∧ LCP.pendingLatencySamples_ p2 = 2480.
Proof.
  eexists. split; [vm_compute; reflexivity|]. split; [reflexivity|].
  destruct (updateControls_idempotent (H := loopback) late_controls fresh_placeholder _
              eq_refl) as (p2 & Hupd & _ & _ & _ & Hsame).
  exists p2. split; [exact Hupd|].
  rewrite (Hsame I). reflexivity.
Defined.

(** A stored quality that is not the default one is replaced. *)
Lemma updateControls_resets_quality_witness :
  ∃ p',
    TSPP.getParameters (LCP.processor_ fast_placeholder) = fast_parameters
    ∧ LCP.updateControls late_controls fast_placeholder = Some p'
    ∧ TSPP.getParameters (LCP.processor_ p') =
      {| tempoRatio := double_lit 5 (-2);
         pitchSemitones := double_lit 3 0;
         quality := {| formantPreservation := S754_finite false 8388608 (-24);
                       transientSensitivity := S754_finite false 8388608 (-24);
                       highQuality := true |} |}.
Proof.
  eexists. split; [reflexivity|]. split; [vm_compute; reflexivity|].
  apply (updateControls_resets_quality (H := loopback) late_controls fast_placeholder).
  vm_compute. reflexivity.
Defined.

Lemma passthrough_process_witness :
  is_placeholder (LCP.processor_ fresh_placeholder)
  ∧ size_mul 3 (to_size_t 2) <= size three_frames
  ∧ TSPP.process three_frames 3 [zero_sample] (LCP.processor_ fresh_placeholder)
    = Some (3, three_frames, LCP.processor_ fresh_placeholder).
Proof.
  assert (size_mul 3 (to_size_t 2) <= size three_frames) as Hfit
    by (vm_compute; discriminate).
  split; [exact I|]. split; [exact Hfit|].
  destruct (passthrough_process (H := loopback) three_frames 3 [zero_sample]
              (LCP.processor_ fresh_placeholder) I Hfit) as [Hprocess _].
  rewrite Hprocess. reflexivity.
Defined.

Lemma construction_unchecked_witness :
  TSPP.placeholderLatency (double_lit 0 0) = Some 0
  ∧ LCP.new (H := loopback) false (double_lit 0 0) (-2)
    = Some (placeholder_state (double_lit 0 0) (-2) 0).
Proof.
  split; [reflexivity|].
  apply (construction_unchecked (H := loopback) (double_lit 0 0) (-2) 0).
  reflexivity.
Defined.

(** Construction does not fail on invalid arguments: without the library
    a processor is constructed for no channel at a sample rate of zero, for a negative
    channel count, and for two channels at a sample rate of zero; none of
    these constructions ends in an error, which would be [None] here. *)
Lemma construction_accepts_invalid :
  LCP.new (H := loopback) false (double_lit 0 0) 0
    = Some (placeholder_state (double_lit 0 0) 0 0)
  ∧ LCP.new (H := loopback) false (double_lit 48000 0) (-1)
    = Some (placeholder_state (double_lit 48000 0) (-1) 480)
  ∧ LCP.new (H := loopback) false (double_lit 0 0) 2
    = Some (placeholder_state (double_lit 0 0) 2 0).
Proof. split_and!; vm_compute; reflexivity. Qed.

Lemma three_frames_processed :
  TSPP.process three_frames 3 [] (LCP.processor_ fresh_placeholder)
  = Some (3, three_frames, LCP.processor_ fresh_placeholder).
Proof. vm_compute. reflexivity. Defined.

(** 480 pending and three stereo frames: six zeros in front, 474 behind. *)
Lemma flush_within_call_witness :
  TSPP.process three_frames 3 [] (LCP.processor_ fresh_placeholder)
    = Some (3, three_frames, LCP.processor_ fresh_placeholder)
  ∧ is_size_t (LCP.pendingLatencySamples_ fresh_placeholder)
  ∧ ∃ p',
      LCP.processBlock three_frames 3 [zero_sample] fresh_placeholder
      = Some (3, replicate 6 zero_sample ++ three_frames ++ replicate 474 zero_sample, p')
      ∧ LCP.pendingLatencySamples_ p' = 0.
Proof.
  assert (is_size_t (LCP.pendingLatencySamples_ fresh_placeholder)) as Hpend
    by (unfold is_size_t, SIZE_MAX; simpl; lia).
  split; [exact three_frames_processed|]. split; [exact Hpend|].
  destruct (flush_within_call (H := loopback) three_frames 3 [zero_sample]
              fresh_placeholder 3 three_frames _ three_frames_processed Hpend)
    as (output & p' & Hblock & Hzero & Hout).
  exists p'. split; [|exact Hzero].
  rewrite Hblock, Hout; [reflexivity|].
  vm_compute. discriminate.
Defined.

Lemma output_length_witness :
  ∃ output p',
    LCP.processBlock three_frames 3 [zero_sample] fresh_placeholder
      = Some (3, output, p')
    ∧ size output = 480 + 3 * 2
    ∧ LCP.processBlock three_frames 0 [zero_sample] fresh_placeholder
      = Some (0, replicate 480 zero_sample, p').
Proof.
  destruct (output_length (H := loopback) three_frames 3 [zero_sample]
              fresh_placeholder 3 three_frames (LCP.processor_ fresh_placeholder)
              fresh_placeholder_consistent)
    as (output & p' & Hblock & _ & Hsize & _ & _ & _ & Hzero).
  - unfold is_size_t, SIZE_MAX. lia.
  - simpl. lia.
  - exact three_frames_processed.
  - vm_compute. discriminate.
  - exists output, p'. split; [exact Hblock|]. split; [exact Hsize|].
    rewrite (Hzero I). vm_compute in Hblock.
    injection Hblock as _ <-. reflexivity.
Defined.

(** Two calls in a row: 480 zeros in the first block, none in the second. *)
Lemma padding_drains_once_witness :
  ∃ b b' p',
    processBlocks [(three_frames, 3); (three_frames, 3)] fresh_placeholder
      = Some ([b; b'], p')
    ∧ total_injected [b; b'] = 480
    ∧ zeros_injected b = 480
    ∧ block_output b' = three_frames
    ∧ LCP.pendingLatencySamples_ p' = 0.
Proof.
  eexists _, _, _. split; [vm_compute; reflexivity|].
  edestruct (padding_drains_once (H := loopback) (three_frames, 3) [(three_frames, 3)]
               fresh_placeholder) as (Hsum & _ & Hlater & Hzero).
  - unfold is_size_t, SIZE_MAX. simpl. lia.
  - vm_compute. reflexivity.
  - vm_compute. discriminate.
  - split; [exact Hsum|]. split; [reflexivity|]. split; [reflexivity|]. exact Hzero.
Defined.

(** The scenario with the stand-in engine, which reports 256 frames and
    hands back the 512 frames it was given. *)
Lemma scenario_latency_256_witness :
  LCP.new true (double_lit 48000 0) 2 = Some fresh_rubberband
  ∧ LCP.updateControls LCP.Controls_default fresh_rubberband = Some fresh_rubberband
  ∧ TSPP.getLatencySamples (LCP.processor_ fresh_rubberband) = 256
  ∧ LCP.pendingLatencySamples_ fresh_rubberband = 256
  ∧ ∃ p',
      LCP.processBlock block_512 512 [] fresh_rubberband
      = Some (512, replicate 256 zero_sample ++ block_512, p')
      ∧ LCP.pendingLatencySamples_ p' = 0.
Proof.
  assert (LCP.updateControls LCP.Controls_default fresh_rubberband
          = Some fresh_rubberband) as Hupd by (vm_compute; reflexivity).
  assert (TSPP.process block_512 512 [] (LCP.processor_ fresh_rubberband)
          = Some (512, block_512, LCP.processor_ fresh_rubberband)) as Hproc
    by (vm_compute; reflexivity).
  destruct (scenario_latency_256 (H := loopback) true LCP.Controls_default
              fresh_rubberband fresh_rubberband block_512 [] 512 block_512
              (LCP.processor_ fresh_rubberband)
              fresh_rubberband_new eq_refl Hupd eq_refl Hproc)
    as (Hpend & zeros & p' & Hzeros & _ & _ & _ & Hblock & Hzero).
  split; [exact fresh_rubberband_new|]. split; [exact Hupd|].
  split; [reflexivity|]. split; [exact Hpend|].
  exists p'. split; [|exact Hzero].
  rewrite Hblock, Hzeros. vm_compute. reflexivity.
Defined.

(** * Further properties of the code *)

Section Stretch_processor.
Context `{RubberBand}.

Lemma process_keeps input frames output tp produced processed tp' :
  engine_consistent tp →
  TSPP.process input frames output tp = Some (produced, processed, tp') →
  size processed = size_mul produced (to_size_t (TSPP.channelCount_ tp))
  ∧ engine_consistent tp'
  ∧ TSPP.channelCount_ tp' = TSPP.channelCount_ tp
  ∧ TSPP.sampleRate_ tp' = TSPP.sampleRate_ tp
  ∧ TSPP.getParameters tp' = TSPP.getParameters tp
  ∧ (is_placeholder tp ↔ is_placeholder tp').
Proof.
  intros Hc Hp.
  destruct (process_size _ _ _ _ _ _ _ Hp Hc) as (Hsize & Hc' & Hch).
  split_and!; [done..| | |].
  all: unfold TSPP.process, TSPP.getParameters, is_placeholder in *.
  all: destruct (TSPP.engine_ tp) as [a|n] eqn:He.
  all: try (destruct (read _ _ _) as [data|]; [|done];
            simpl in Hp; injection Hp as <- <- <-; by rewrite ?He).
  all: assert (∃ tp1, (if a is None then TSPP.configureProcessor tp else Some tp) = Some tp1
                      ∧ TSPP.sampleRate_ tp1 = TSPP.sampleRate_ tp
                      ∧ TSPP.parameters_ tp1 = TSPP.parameters_ tp)
         as (tp1 & Htp1 & Hsr & Hpar)
         by (destruct a; [by eexists|];
             unfold TSPP.configureProcessor; rewrite He; by eexists).
  all: rewrite Htp1 in Hp; simpl in Hp.
  all: destruct (TSPP.engine_ tp1) as [[a1|]|]; try done.
  all: destruct (RubberBandAdapter.process _ _ _ _) as [[[n out] a2]|]; [|done].
  all: simpl in Hp; injection Hp as <- <- <-; simpl; done.
Qed.

Lemma process_configured input frames output tp produced processed tp' :
  TSPP.process input frames output tp = Some (produced, processed, tp') →
  configured tp'.
Proof.
  unfold TSPP.process, configured. intros Hp.
  destruct (TSPP.engine_ tp) as [a|n] eqn:He.
  - destruct (if a is None then _ else _) as [tp1|]; [|done]. simpl in Hp.
    destruct (TSPP.engine_ tp1) as [[a1|]|]; try done.
    destruct (RubberBandAdapter.process _ _ _ _) as [[[k out] a2]|]; [|done].
    simpl in Hp. by injection Hp as <- <- <-.
  - destruct (read _ _ _) as [data|]; [|done].
    simpl in Hp. injection Hp as <- <- <-. by rewrite He.
Qed.

(** X1. In either build [process] hands back whole frames: the sample
    count is [produced * channelCount_] as the code computes it.  The call
    leaves the sample rate, the channel count and the stored parameters
    alone, and keeps the engine consistent and in its build. *)
Theorem process_whole_frames input frames output tp produced processed tp' :
  engine_consistent tp →
  TSPP.process input frames output tp = Some (produced, processed, tp') →
  size processed = size_mul produced (to_size_t (TSPP.channelCount_ tp))
  ∧ engine_consistent tp'
  ∧ TSPP.channelCount_ tp' = TSPP.channelCount_ tp
  ∧ TSPP.sampleRate_ tp' = TSPP.sampleRate_ tp
  ∧ TSPP.getParameters tp' = TSPP.getParameters tp
  ∧ (is_placeholder tp ↔ is_placeholder tp').
Proof. apply process_keeps. Qed.

Lemma setParameters_keeps parameters tp tp' :
  engine_consistent tp →
  TSPP.setParameters parameters tp = Some tp' →
  TSPP.getParameters tp' = parameters
  ∧ TSPP.sampleRate tp' = TSPP.sampleRate tp
  ∧ TSPP.channelCount tp' = TSPP.channelCount tp
  ∧ engine_consistent tp'
  ∧ (is_placeholder tp ↔ is_placeholder tp')
  ∧ (is_placeholder tp → TSPP.getLatencySamples tp' = TSPP.getLatencySamples tp).
Proof.
  intros Hc Hset.
  destruct (setParameters_consistent _ _ _ Hset Hc) as (Hc' & Hsr & Hch & Hpar).
  split_and!; [done..| |].
  all: unfold TSPP.setParameters, is_placeholder, TSPP.getLatencySamples,
         engine_consistent in *; simpl in *.
  all: destruct (TSPP.engine_ tp) as [[a|]|n] eqn:He.
  all: try (injection Hset as <-; simpl; by rewrite ?He).
  all: rewrite Hc in Hset; simpl in Hset; injection Hset as <-; done.
Qed.

Lemma setParameters_configured parameters tp tp' :
  TSPP.setParameters parameters tp = Some tp' → configured tp → configured tp'.
Proof.
  unfold TSPP.setParameters, configured. simpl.
  destruct (TSPP.engine_ tp) as [[a|]|n] eqn:He; [|done|].
  - by intros [= <-].
  - destruct (TSPP.placeholderLatency _); [|done]. by intros [= <-].
Qed.

(** X2. [setParameters] followed by [getParameters] gives back what was
    set; the sample rate and the channel count stay, the engine stays
    consistent and in its build, and without the library the latency
    reported is the one reported before. *)
Theorem setParameters_getParameters parameters tp tp' :
  engine_consistent tp →
  TSPP.setParameters parameters tp = Some tp' →
  TSPP.getParameters tp' = parameters
  ∧ TSPP.sampleRate tp' = TSPP.sampleRate tp
  ∧ TSPP.channelCount tp' = TSPP.channelCount tp
  ∧ engine_consistent tp'
  ∧ (is_placeholder tp ↔ is_placeholder tp')
  ∧ (is_placeholder tp → TSPP.getLatencySamples tp' = TSPP.getLatencySamples tp).
Proof. apply setParameters_keeps. Qed.

(** X3. The quality handed to [setParameters] reaches the stored
    parameters only: on a configured processor, two parameter sets with
    the same tempo ratio and pitch leave engines that report the same
    latency and answer every [process] call with the same frames and
    samples. *)
Theorem setParameters_ignores_quality q q' tp t1 t2 input frames output :
  configured tp →
  tempoRatio q = tempoRatio q' →
  pitchSemitones q = pitchSemitones q' →
  TSPP.setParameters q tp = Some t1 →
  TSPP.setParameters q' tp = Some t2 →
  TSPP.getLatencySamples t1 = TSPP.getLatencySamples t2
  ∧ (λ r, (r.1.1, r.1.2)) <$> TSPP.process input frames output t1
    = (λ r, (r.1.1, r.1.2)) <$> TSPP.process input frames output t2.
Proof.
  intros Hconf Htempo Hpitch Hset1 Hset2.
  unfold TSPP.setParameters, configured in *. simpl in *.
  destruct (TSPP.engine_ tp) as [[a|]|n] eqn:He; [|done|].
  - injection Hset1 as <-. injection Hset2 as <-.
    unfold TSPP.getLatencySamples, TSPP.process, RubberBandAdapter.latency,
      RubberBandAdapter.process, RubberBandAdapter.setParameters. simpl.
    rewrite Htempo, Hpitch. split; [done|].
    case_match; [done|].
    destruct (mapM _ _) as [chans|]; [|done]. simpl.
    destruct (retrieve _ _) as [written s].
    by destruct (RubberBandAdapter.store_channels _ _ _ _).
  - destruct (TSPP.placeholderLatency _) as [n'|]; [|done]. simpl in *.
    injection Hset1 as <-. injection Hset2 as <-.
    unfold TSPP.getLatencySamples, TSPP.process. simpl. split; [done|].
    by destruct (read _ _ _).
Qed.

(** X4. When the library's [OptionPitchHighSpeed] is the zero word, the
    [highQuality] field has no effect on the engine the adapter builds:
    parameters that agree on everything else yield the same stretcher. *)
Theorem highQuality_without_effect sampleRate channelCount q q' :
  OptionPitchHighSpeed = 0 →
  tempoRatio q = tempoRatio q' →
  pitchSemitones q = pitchSemitones q' →
  formantPreservation (quality q) = formantPreservation (quality q') →
  transientSensitivity (quality q) = transientSensitivity (quality q') →
  RubberBandAdapter.stretcher_ (RubberBandAdapter.new sampleRate channelCount q)
  = RubberBandAdapter.stretcher_ (RubberBandAdapter.new sampleRate channelCount q').
Proof.
  intros Hspeed Htempo Hpitch Hformant Htransient.
  unfold RubberBandAdapter.new, RubberBandAdapter.setParameters. simpl.
  rewrite Hspeed, Htempo, Hpitch, Hformant, Htransient, !Z.lor_0_r.
  by destruct (highQuality (quality q)), (highQuality (quality q')).
Qed.

End Stretch_processor.

Section Latency_processor.
Context `{RubberBand}.

Lemma new_configured have_rubberband sampleRate channelCount defaults tp :
  TSPP.new have_rubberband sampleRate channelCount defaults = Some tp →
  configured tp ∧ (is_placeholder tp ↔ have_rubberband = false).
Proof.
  unfold TSPP.new, TSPP.configureProcessor, configured, is_placeholder. simpl.
  destruct have_rubberband; simpl.
  - intros [= <-]. simpl. split; [done|]. split; [done|discriminate].
  - destruct (TSPP.placeholderLatency _); [|done]. simpl. intros [= <-]. by simpl.
Qed.

(** X5. From construction on, through any [updateControls] and
    [processBlock] calls, the processor stays consistent, its engine slot
    stays filled and in the build it was constructed in, the channel count
    and the sample rate are those given to the constructor, and
    [updateControls] returns for every controls value. *)
Theorem reachable_invariant have_rubberband sampleRate channelCount p :
  reachable have_rubberband sampleRate channelCount p →
  consistent p
  ∧ configured (LCP.processor_ p)
  ∧ LCP.channelCount_ p = channelCount
  ∧ TSPP.channelCount (LCP.processor_ p) = channelCount
  ∧ TSPP.sampleRate (LCP.processor_ p) = sampleRate
  ∧ (is_placeholder (LCP.processor_ p) ↔ have_rubberband = false)
  ∧ ∀ c, is_Some (LCP.updateControls c p).
Proof.
  intros Hreach.
  assert (consistent p
          ∧ configured (LCP.processor_ p)
          ∧ LCP.channelCount_ p = channelCount
          ∧ TSPP.sampleRate (LCP.processor_ p) = sampleRate
          ∧ (is_placeholder (LCP.processor_ p) ↔ have_rubberband = false))
    as (Hc & Hconf & Hch & Hsr & Hbuild).
  { induction Hreach as [p Hnew|c p p' _ IH Hupd|input frames output0 produced output p p' _ IH Hpb].
    - pose proof (new_consistent_processor _ _ _ _ Hnew) as (Hc & _ & Hch & _).
      unfold LCP.new in Hnew.
      destruct (TSPP.new _ _ _ _) as [tp|] eqn:Htp; [|done].
      simpl in Hnew. injection Hnew as <-. simpl in *.
      destruct (new_configured _ _ _ _ _ Htp) as [Hconf Hbuild].
      apply new_consistent in Htp as (_ & Hsr & _ & _).
      split_and!; [exact Hc|exact Hconf|reflexivity|exact Hsr|exact Hbuild].
    - destruct IH as (Hc & Hconf & Hch & Hsr & Hbuild).
      pose proof (updateControls_consistent _ _ _ Hupd Hc) as Hc'.
      unfold LCP.updateControls in Hupd.
      destruct (TSPP.setParameters _ _) as [tp|] eqn:Htp; [|done].
      simpl in Hupd. injection Hupd as <-. simpl.
      destruct Hc as (Hce & _).
      destruct (setParameters_keeps _ _ _ Hce Htp) as (_ & Hsr' & _ & _ & Hb & _).
      pose proof (setParameters_configured _ _ _ Htp Hconf).
      split_and!; [done..|congruence|]. by rewrite <- Hb.
    - destruct IH as (Hc & Hconf & Hch & Hsr & Hbuild).
      destruct (processBlock_consistent _ _ _ _ _ _ _ Hpb Hc) as [Hc' _].
      destruct (processBlock_inv _ _ _ _ _ _ _ Hpb) as [processed Hproc].
      pose proof Hc as (Hce & _).
      destruct (process_keeps _ _ _ _ _ _ _ Hce Hproc) as (_ & _ & _ & Hsr' & _ & Hb).
      pose proof (process_configured _ _ _ _ _ _ _ Hproc).
      assert (LCP.channelCount_ p' = LCP.channelCount_ p) as Hch'.
      { destruct Hc as (_ & _ & Hpend).
        destruct (processBlock_returns input frames output0 p _ _ _ Hproc Hpend)
          as [out Hret].
        rewrite Hret in Hpb. by injection Hpb as _ <-. }
      unfold TSPP.sampleRate in *.
      split_and!; [done..|congruence|congruence|]. by rewrite <- Hb. }
  split_and!; try done.
  - destruct Hc as (_ & Hch' & _). unfold TSPP.channelCount. congruence.
  - intros c. by apply updateControls_returns.
Qed.

(** X6. Without the library a [processBlock] call returns exactly when the
    caller's buffer holds the [frames * channelCount] samples it reads.
    It then returns [frames]; the block is the pending zeros that fit in
    front, those samples unchanged, and the remaining zeros, and nothing
    but the pending counter changes in the processor. *)
Theorem placeholder_block input frames output0 p :
  consistent p →
  is_placeholder (LCP.processor_ p) →
  let samples := size_mul frames (to_size_t (LCP.channelCount_ p)) in
  let pending := LCP.pendingLatencySamples_ p in
  (is_Some (LCP.processBlock input frames output0 p) ↔ samples <= size input)
  ∧ (samples <= size input → pending + samples <= SIZE_MAX →
     LCP.processBlock input frames output0 p =
     Some (frames,
           replicate (Z.to_nat (Z.min pending samples)) zero_sample
             ++ take (Z.to_nat samples) input
             ++ replicate (Z.to_nat (pending - Z.min pending samples)) zero_sample,
           {| LCP.processor_ := LCP.processor_ p;
              LCP.controls_ := LCP.controls_ p;
              LCP.pendingLatencySamples_ := 0;
              LCP.channelCount_ := LCP.channelCount_ p |})).
Proof.
  intros (_ & Hch & Hpend) Hph samples pending.
  pose proof (size_mul_is_size_t frames (to_size_t (LCP.channelCount_ p))) as Hs.
  fold samples in Hs. unfold is_size_t in Hs.
  assert (TSPP.process input frames [] (LCP.processor_ p)
          = (data ← read input 0 samples; Some (frames, data, LCP.processor_ p))) as Hproc.
  { rewrite placeholder_process by done. unfold samples. by rewrite Hch. }
  split.
  - split.
    + intros [[[produced output] p'] Hpb].
      destruct (processBlock_inv _ _ _ _ _ _ _ Hpb) as [processed Hproc'].
      rewrite Hproc in Hproc'. unfold read in Hproc'.
      case_decide; [|done]. unfold size. lia.
    + intros Hfit. rewrite read_0 in Hproc by lia. simpl in Hproc.
      destruct (processBlock_returns input frames output0 p _ _ _ Hproc Hpend) as [out ->].
      by eexists.
  - intros Hfit Hwrap. rewrite read_0 in Hproc by lia. simpl in Hproc.
    rewrite (processBlock_eq input frames output0 p _ _ _ Hproc Hpend); [done|].
    right. fold pending. unfold size in *. rewrite length_take. lia.
Qed.

(** X7. Nothing clamps the controls: after [updateControls c] the
    processor hands back [c] itself, the control endpoints carry its tempo
    ratio, pitch and manual latency as their defaults and the stretch
    processor's endpoints its tempo ratio and pitch beside 0.5 and 0.5,
    while the advertised minimum and maximum stay what they are. *)
Theorem endpoints_after_update c p p' :
  LCP.updateControls c p = Some p' →
  LCP.currentControls p' = c
  ∧ LCP.defaultValue <$> LCP.controlEndpoints p' =
      [ LCP.tempoRatio c; LCP.pitchSemitones c;
        double_of_int (LCP.manualLatencySamples c) ]
  ∧ defaultValue <$> TSPP.describeEndpoints (LCP.processor_ p') =
      [ LCP.tempoRatio c; LCP.pitchSemitones c; double_lit 1 (-1); double_lit 1 (-1) ]
  ∧ (LCP.minimum <$> LCP.controlEndpoints p', LCP.maximum <$> LCP.controlEndpoints p')
    = ([ double_lit 1 (-1); double_lit (-12) 0; double_lit 0 0 ],
       [ double_lit 5 (-1); double_lit 12 0; double_lit 4096 0 ]).
Proof.
  intros Hupd.
  assert (TSPP.parameters_ (LCP.processor_ p')
          = Build_Parameters (LCP.tempoRatio c) (LCP.pitchSemitones c)
              StretchQuality_default ∧ LCP.controls_ p' = c) as [Hpar Hctl].
  { unfold LCP.updateControls in Hupd.
    destruct (TSPP.setParameters _ _) as [tp|] eqn:Htp; [|done].
    simpl in Hupd. injection Hupd as <-. simpl. split; [|done].
    unfold TSPP.setParameters in Htp. simpl in Htp.
    destruct (TSPP.engine_ (LCP.processor_ p)) as [[a|]|n].
    - by injection Htp as <-.
    - by injection Htp as <-.
    - destruct (TSPP.placeholderLatency _); [|done]. by injection Htp as <-. }
  unfold LCP.currentControls, LCP.controlEndpoints, TSPP.describeEndpoints.
  rewrite Hpar, Hctl. done.
Qed.

End Latency_processor.

Section Adapter_layout.
Context `{RubberBand}.

Lemma size_concat_blocks (blocks : list (list float)) F :
  Forall (λ c, size c = F) blocks →
  size (concat blocks) = Z.of_nat (length blocks) * F.
Proof.
  induction 1 as [|c blocks Hc _ IH]; [done|].
  simpl. rewrite size_app, IH, Hc. lia.
Qed.

(** The first loop of the adapter's [process]: channel [ch] is the block of
    [frames] samples at offset [ch * frames] of the caller's buffer. *)
Lemma read_channels input F n k :
  0 <= F → 0 <= k →
  (k + Z.of_nat n) * F <= SIZE_MAX → k + Z.of_nat n <= SIZE_MAX →
  (k + Z.of_nat n) * F <= size input →
  ∃ chans,
    mapM (λ ch, read input (size_mul (to_size_t ch) F) F) (seqZ k (Z.of_nat n)) = Some chans
    ∧ length chans = n
    ∧ Forall (λ c, size c = F) chans
    ∧ concat chans = take (Z.to_nat (Z.of_nat n * F)) (drop (Z.to_nat (k * F)) input).
Proof.
  intros HF. revert k. induction n as [|n IH]; intros k Hk Hwrap Hcount Hfit.
  - exists []. by split_and!.
  - rewrite seqZ_cons by lia. simpl.
    assert (size_mul (to_size_t k) F = k * F) as ->.
    { unfold size_mul. rewrite (to_size_t_id k) by (unfold is_size_t; lia).
      apply to_size_t_id. unfold is_size_t. nia. }
    assert (read input (k * F) F
            = Some (take (Z.to_nat F) (drop (Z.to_nat (k * F)) input))) as ->.
    { unfold read. by rewrite decide_True by (unfold size in Hfit; nia). }
    simpl.
    replace (Z.pred (Z.of_nat (S n))) with (Z.of_nat n) by lia.
    destruct (IH (Z.succ k)) as (chans & -> & Hlen & Hall & Hcat); [lia..|].
    simpl. eexists. split; [done|]. split_and!.
    + simpl. by rewrite Hlen.
    + constructor; [|done]. unfold size in *.
      rewrite length_take, length_drop. nia.
    + simpl. rewrite Hcat.
      replace (Z.to_nat (Z.succ k * F)) with (Z.to_nat (k * F) + Z.to_nat F)%nat by nia.
      rewrite <- drop_drop, take_take_drop. f_equal. nia.
Qed.

(** The second loop with [retrieve]: blocks of [F] samples stored one after
    the other make up the buffer. *)
Lemma store_blocks F (stored todo : list (list float)) (rest : list float) :
  0 <= F →
  Forall (λ c, size c = F) (stored ++ todo) →
  size rest = Z.of_nat (length todo) * F →
  Z.of_nat (length stored + length todo) * F <= SIZE_MAX →
  Z.of_nat (length stored + length todo) <= SIZE_MAX →
  RubberBandAdapter.store_channels
    (seqZ (Z.of_nat (length stored)) (Z.of_nat (length todo))) F
    (stored ++ todo) (concat stored ++ rest)
  = Some (concat stored ++ concat todo).
Proof.
  intros HF. revert stored rest.
  induction todo as [|b todo IH]; intros stored rest Hall Hrest Hwrap Hcount.
  - simpl. rewrite (size_0_nil rest) by (simpl in Hrest; lia). done.
  - rewrite seqZ_cons by (simpl; lia). simpl.
    apply Forall_app in Hall as [Hstored Htodo].
    apply Forall_cons in Htodo as [Hb Htodo].
    pose proof (size_concat_blocks _ _ Hstored) as Hcat.
    rewrite Nat2Z.id, list_lookup_middle by done. simpl.
    rewrite take_ge by (unfold size in Hb; lia).
    assert (size_mul (to_size_t (Z.of_nat (length stored))) F
            = Z.of_nat (length stored) * F) as ->.
    { unfold size_mul.
      rewrite (to_size_t_id (Z.of_nat (length stored))) by (unfold is_size_t; lia).
      apply to_size_t_id. unfold is_size_t. simpl in Hwrap. nia. }
    simpl in Hrest.
    unfold write. rewrite decide_True
      by (unfold size in *; rewrite length_app; nia).
    simpl.
    replace (Z.to_nat (Z.of_nat (length stored) * F))
      with (length (concat stored) + 0)%nat by (unfold size in Hcat; lia).
    rewrite list_inserts_app_r.
    rewrite <- (take_drop (Z.to_nat F) rest) at 1.
    rewrite list_inserts_0_r
      by (unfold size in *; rewrite length_take; nia).
    replace (Z.pred (Z.of_nat (S (length todo))))
      with (Z.of_nat (length todo)) by lia.
    specialize (IH (stored ++ [b]) (drop (Z.to_nat F) rest)).
    rewrite length_app in IH. simpl in IH.
    replace (Z.succ (Z.of_nat (length stored)))
      with (Z.of_nat (length stored + 1)) by lia.
    rewrite <- app_assoc in IH. simpl in IH.
    rewrite concat_app in IH. simpl in IH. rewrite app_nil_r, <- !app_assoc in IH.
    rewrite IH; [done| | | |].
    + apply Forall_app. split; [done|]. by constructor.
    + unfold size in *. rewrite length_drop. nia.
    + simpl in Hwrap. nia.
    + simpl in Hcount. lia.
Qed.

(** X8. With the library a [process] call returns only for a channel count
    that is not negative and a buffer of at least [frames * channelCount_]
    samples: the adapter hands the library [channelCount_] pointers
    [frames] samples apart. *)
Theorem adapter_needs_whole_buffer input frames output a result :
  RubberBandAdapter.process input frames output a = Some result →
  is_size_t frames →
  RubberBandAdapter.channelCount_ a * frames <= SIZE_MAX →
  0 <= RubberBandAdapter.channelCount_ a
  ∧ RubberBandAdapter.channelCount_ a * frames <= size input.
Proof.
  unfold RubberBandAdapter.process, is_size_t. intros Hp Hframes Hwrap.
  set (C := RubberBandAdapter.channelCount_ a) in *.
  destruct (C <? 0) eqn:Hneg; [done|]. split; [lia|].
  destruct (mapM _ _) as [chans|] eqn:Hread; [|done]. clear Hp.
  destruct (decide (C = 0)) as [->|HC]; [pose proof (size_nonneg input); lia|].
  assert (is_Some (mapM (λ ch, read input (size_mul (to_size_t ch) frames) frames)
                        (seqZ 0 C))) as Hsome by by eexists.
  rewrite mapM_is_Some, Forall_forall in Hsome.
  destruct (Hsome (C - 1)) as [data Hdata]; [apply elem_of_seqZ; lia|].
  simpl in Hdata. unfold read in Hdata. case_decide as Hrange; [|done].
  destruct (decide (frames = 0)) as [->|Hf]; [pose proof (size_nonneg input); lia|].
  assert (size_mul (to_size_t (C - 1)) frames = (C - 1) * frames) as Hoff.
  { unfold size_mul. rewrite (to_size_t_id (C - 1)) by (unfold is_size_t; nia).
    apply to_size_t_id. unfold is_size_t. nia. }
  rewrite Hoff in Hrange. unfold size. lia.
Qed.

(** X9. Around a library that hands back the frames it is given, the
    adapter's [process] is the identity on the first
    [frames * channelCount_] samples of the caller's buffer: the blocks it
    cuts the buffer into and the blocks it stores into [output] line up.
    What [output] held before is gone. *)
Theorem transparent_round_trip input frames output a :
  transparent_library →
  is_size_t frames →
  0 < RubberBandAdapter.channelCount_ a →
  is_int (RubberBandAdapter.channelCount_ a) →
  RubberBandAdapter.channelCount_ a * frames <= SIZE_MAX →
  RubberBandAdapter.channelCount_ a * frames <= size input →
  ∃ a',
    RubberBandAdapter.process input frames output a
    = Some (frames, take (Z.to_nat (RubberBandAdapter.channelCount_ a * frames)) input, a')
    ∧ RubberBandAdapter.channelCount_ a' = RubberBandAdapter.channelCount_ a
    ∧ RubberBandAdapter.getParameters a' = RubberBandAdapter.getParameters a.
Proof.
  intros Htransparent Hframes Hpos Hint Hwrap Hfit.
  unfold is_size_t, is_int in *.
  set (C := RubberBandAdapter.channelCount_ a) in *.
  destruct (read_channels input frames (Z.to_nat C) 0)
    as (chans & Hread & Hlen & Hall & Hcat);
    [unfold SIZE_MAX in *; lia..|].
  rewrite Z2Nat.id in Hread, Hcat by lia. rewrite drop_0 in Hcat.
  unfold RubberBandAdapter.process. fold C.
  replace (C <? 0) with false by lia.
  rewrite Hread. simpl.
  destruct (Htransparent chans frames false (RubberBandAdapter.stretcher_ a))
    as [Havailable Hretrieve]; [intros ->; simpl in Hlen; lia|done|].
  simpl in Havailable, Hretrieve.
  rewrite Havailable, (to_size_t_id frames) by done.
  destruct (retrieve frames _) as [written s]. simpl in Hretrieve. subst written.
  assert (size_mul frames (to_size_t C) = Z.of_nat (length chans) * frames) as Hsize.
  { rewrite size_mul_exact by lia. lia. }
  pose proof (store_blocks frames [] chans
                (vresize (size_mul frames (to_size_t C)) zero_sample output)) as Hstore.
  simpl in Hstore. rewrite Hlen, Z2Nat.id in Hstore by lia.
  change (Z.of_nat 0) with 0 in Hstore.
  rewrite Hstore.
  - simpl. eexists. by rewrite Hcat.
  - lia.
  - done.
  - rewrite size_vresize by apply size_mul_is_size_t. rewrite Hsize. lia.
  - lia.
  - unfold SIZE_MAX. lia.
Qed.

End Adapter_layout.

(** ** [main.cpp] *)

Lemma fill_inv buf n value out :
  Main.fill buf n value = Some out →
  0 <= n <= size buf
  ∧ out = replicate (Z.to_nat n) value ++ drop (Z.to_nat n) buf.
Proof. unfold Main.fill. case_decide; [|done]. by intros [= <-]. Qed.

(** X10. [audioCallback] returns exactly when the buffer holds the
    [framesPerBuffer * channels] samples it fills (two channels when there
    is no user data).  It then always answers [paContinue]; the buffer
    keeps its length, those samples are zero and the ones behind them are
    untouched; the user data, if any, has [framesPerBuffer] added to its
    frame count (in 64 bits) and keeps its channel count. *)
Theorem audioCallback_silence output framesPerBuffer userData :
  let samples :=
    size_mul framesPerBuffer (to_size_t (from_option Main.channels 2 userData)) in
  (is_Some (Main.audioCallback output framesPerBuffer userData) ↔ samples <= size output)
  ∧ ∀ result out userData',
      Main.audioCallback output framesPerBuffer userData = Some (result, out, userData') →
      result = Main.paContinue
      ∧ size out = size output
      ∧ (∀ i, (i < Z.to_nat samples)%nat → out !! i = Some zero_sample)
      ∧ (∀ i, (Z.to_nat samples ≤ i)%nat → out !! i = output !! i)
      ∧ userData' =
          (λ d, {| Main.framesRendered := size_add (Main.framesRendered d) framesPerBuffer;
                   Main.channels := Main.channels d |}) <$> userData.
Proof.
  intros samples.
  assert (Main.audioCallback output framesPerBuffer userData
          = (out ← Main.fill output samples zero_sample;
             Some (Main.paContinue, out,
                   (λ d, {| Main.framesRendered :=
                              size_add (Main.framesRendered d) framesPerBuffer;
                            Main.channels := Main.channels d |}) <$> userData))) as ->.
  { unfold Main.audioCallback, samples. by destruct userData. }
  pose proof (size_mul_is_size_t framesPerBuffer
                (to_size_t (from_option Main.channels 2 userData))) as Hs.
  fold samples in Hs. unfold is_size_t in Hs.
  split.
  - unfold Main.fill. case_decide as Hfit; simpl.
    + split; [lia|by eexists].
    + split; [by intros [? ?]|lia].
  - intros result out userData' Hcall.
    destruct (Main.fill _ _ _) as [out'|] eqn:Hfill; [|done].
    simpl in Hcall. injection Hcall as <- <- <-.
    apply fill_inv in Hfill as [Hfit ->].
    split_and!; [done| | | |done].
    + rewrite size_app, size_replicate by lia. unfold size in *.
      rewrite length_drop. lia.
    + intros i Hi. rewrite lookup_app_l by (rewrite length_replicate; lia).
      by apply lookup_replicate_2.
    + intros i Hi. rewrite lookup_app_r by (rewrite length_replicate; lia).
      rewrite length_replicate, lookup_drop. f_equal. lia.
Qed.

Lemma audioCallback_inv output framesPerBuffer d result out userData' :
  Main.audioCallback output framesPerBuffer (Some d) = Some (result, out, userData') →
  result = Main.paContinue
  ∧ userData' =
      Some {| Main.framesRendered := size_add (Main.framesRendered d) framesPerBuffer;
              Main.channels := Main.channels d |}.
Proof.
  unfold Main.audioCallback. intros Hcall.
  destruct (Main.fill _ _ _) as [out'|]; [|done].
  simpl in Hcall. by injection Hcall as <- <- <-.
Qed.

(** X11. Over a run of callbacks the frame count of the user data grows by
    the frames the callbacks were asked for, in 64 bits; the channel count
    stays, and no callback asks for the stream to end. *)
Theorem callbacks_count calls d results userData' :
  is_size_t (Main.framesRendered d) →
  Main.callbacks calls (Some d) = Some (results, userData') →
  userData' =
    Some {| Main.framesRendered :=
              to_size_t (Main.framesRendered d + frames_requested calls);
            Main.channels := Main.channels d |}
  ∧ length results = length calls
  ∧ Forall (λ r, r.1 = Main.paContinue) results.
Proof.
  revert d results.
  induction calls as [|[output framesPerBuffer] calls IH]; intros d results Hd Hrun.
  - simpl in Hrun. injection Hrun as <- <-. simpl.
    rewrite Z.add_0_r, to_size_t_id by done. split_and!; [by destruct d|done|done].
  - simpl in Hrun.
    destruct (Main.audioCallback _ _ _) as [[[result out] userData1]|] eqn:Hcall; [|done].
    simpl in Hrun.
    apply audioCallback_inv in Hcall as [-> ->].
    destruct (Main.callbacks calls _) as [[results1 userData2]|] eqn:Hrest; [|done].
    simpl in Hrun. injection Hrun as <- <-.
    apply IH in Hrest as (-> & Hlen & Hall); [|apply to_size_t_is_size_t].
    simpl. split_and!; [|by rewrite Hlen|by constructor].
    do 2 f_equal. unfold frames_requested, size_add, to_size_t. simpl.
    rewrite Zplus_mod_idemp_l. f_equal. lia.
Qed.

(** X12. With a negative channel count in the user data every callback
    that is asked for frames writes past the end of its buffer, whatever
    the buffer's size below 2^64 - framesPerBuffer * |channels|. *)
Theorem audioCallback_negative_channels output framesPerBuffer d :
  Main.channels d < 0 →
  0 < framesPerBuffer →
  framesPerBuffer * - Main.channels d + size output <= SIZE_MAX →
  Main.audioCallback output framesPerBuffer (Some d) = None.
Proof.
  intros Hneg Hframes Hsmall. pose proof (size_nonneg output) as Hout.
  unfold Main.audioCallback, Main.fill.
  assert (size_mul framesPerBuffer (to_size_t (Main.channels d))
          = 2 ^ 64 + framesPerBuffer * Main.channels d) as ->.
  { unfold size_mul, to_size_t, SIZE_MAX in *.
    rewrite Zmult_mod_idemp_r. symmetry.
    apply (Z.mod_unique _ _ (-1)); [left; nia|lia]. }
  rewrite decide_False; [done|]. unfold SIZE_MAX in *. lia.
Qed.

Section Command_line.
Context `{Main.Conversions}.
Local Open Scope string_scope.

Lemma value_flag_cases flag :
  flag ∈ value_flags →
  flag = "--frames" ∨ flag = "-f" ∨ flag = "--sample-rate" ∨ flag = "-r"
  ∨ flag = "--duration-seconds" ∨ flag = "-d" ∨ flag = "--channels".
Proof.
  unfold value_flags. rewrite !elem_of_cons, elem_of_nil. tauto.
Qed.

Lemma not_value_flag arg :
  arg ∉ value_flags →
  (String.eqb arg "--frames" || String.eqb arg "-f") = false
  ∧ (String.eqb arg "--sample-rate" || String.eqb arg "-r") = false
  ∧ (String.eqb arg "--duration-seconds" || String.eqb arg "-d") = false
  ∧ String.eqb arg "--channels" = false.
Proof.
  unfold value_flags. rewrite !not_elem_of_cons.
  intros (? & ? & ? & ? & ? & ? & ? & _).
  rewrite !orb_false_iff, !String.eqb_neq. done.
Qed.

(** A token that is no flag with a value is the help flag or is skipped. *)
Lemma parseArgs_loop_other arg rest config :
  arg ∉ value_flags →
  Main.parseArgs_loop (arg :: rest) config =
  if String.eqb arg "--help" || String.eqb arg "-h" then Main.Exits 0 Main.usage
  else Main.parseArgs_loop rest config.
Proof.
  intros Harg. apply not_value_flag in Harg as (H1 & H2 & H3 & H4).
  simpl. rewrite H1, H2, H3, H4. by destruct rest.
Qed.

(** A flag and its value are dealt with before anything behind them. *)
Lemma parseArgs_loop_flag flag value rest config :
  flag ∈ value_flags →
  Main.parseArgs_loop (flag :: value :: rest) config =
  match Main.parseArgs_loop [flag; value] config with
  | Main.Returns config' => Main.parseArgs_loop rest config'
  | outcome => outcome
  end.
Proof.
  intros Hflag.
  destruct (value_flag_cases _ Hflag) as [->|[->|[->|[->|[->|[->| ->]]]]]]; simpl.
  - by destruct (Main.stoul value).
  - by destruct (Main.stoul value).
  - by destruct (Main.stod value).
  - by destruct (Main.stod value).
  - by destruct (Main.stod value).
  - by destruct (Main.stod value).
  - by destruct (Main.stoi value).
Qed.

Lemma parseArgs_loop_app args args' config :
  well_paired args →
  Main.parseArgs_loop (args ++ args') config =
  match Main.parseArgs_loop args config with
  | Main.Returns config' => Main.parseArgs_loop args' config'
  | outcome => outcome
  end.
Proof.
  intros Hpaired. revert config.
  induction Hpaired as [|flag value args Hflag _ IH|arg args Harg _ IH]; intros config.
  - done.
  - rewrite <- !app_comm_cons.
    rewrite (parseArgs_loop_flag flag value (args ++ args')) by done.
    rewrite (parseArgs_loop_flag flag value args) by done.
    by destruct (Main.parseArgs_loop [flag; value] config).
  - rewrite <- app_comm_cons.
    rewrite (parseArgs_loop_other arg (args ++ args')) by done.
    rewrite (parseArgs_loop_other arg args) by done.
    by destruct (_ || _).
Qed.

(** X13. [parseArgs] reads an argument list piece by piece: when every
    flag of a first part has its value inside that part, parsing the whole
    list is parsing the first part and going on from its result with the
    rest, and an exit or an exception of the first part ends the parse. *)
Theorem parseArgs_append program args args' :
  well_paired args →
  Main.parseArgs (program :: args ++ args') =
  match Main.parseArgs (program :: args) with
  | Main.Returns config => Main.parseArgs_loop args' config
  | outcome => outcome
  end.
Proof. intros Hpaired. unfold Main.parseArgs. simpl. by apply parseArgs_loop_app. Qed.

(** X14. A token that is neither a flag nor in the place of a value is
    skipped, and so is a flag that wants a value when it comes last: the
    parse goes on, or ends, with the configuration it had. *)
Theorem parseArgs_skips arg rest config :
  arg ∉ help_flags →
  arg ∉ value_flags ∨ rest = [] →
  Main.parseArgs_loop (arg :: rest) config = Main.parseArgs_loop rest config.
Proof.
  unfold help_flags. rewrite !not_elem_of_cons. intros (Hh1 & Hh2 & _) Hskip.
  apply String.eqb_neq in Hh1, Hh2.
  destruct Hskip as [Hother| ->].
  - rewrite parseArgs_loop_other by done. by rewrite Hh1, Hh2.
  - simpl. by rewrite Hh1, Hh2.
Qed.


(** X16. The help flag in the place of a flag ends the program with
    status 0 and the usage text, whatever follows it; the arguments in
    front of it are still converted, and one that does not convert throws
    before the help is seen. *)
Theorem parseArgs_help program args flag rest :
  well_paired args →
  flag ∈ help_flags →
  Main.parseArgs (program :: args ++ flag :: rest) =
  match Main.parseArgs (program :: args) with
  | Main.Returns _ => Main.Exits 0 Main.usage
  | outcome => outcome
  end.
Proof.
  intros Hpaired Hflag. unfold Main.parseArgs. rewrite !skipn_cons, !drop_0.
  rewrite parseArgs_loop_app by done.
  destruct (Main.parseArgs_loop args _) as [config| |]; [|done..].
  unfold help_flags in Hflag. rewrite !elem_of_cons, elem_of_nil in Hflag.
  destruct Hflag as [->|[->|[]]]; by destruct rest.
Qed.

End Command_line.

(** ** The placeholder latency *)

Section Placeholder_latency.
Context `{RubberBand}.

Lemma digits2_pos_spec m :
  2 ^ (Zpos (digits2_pos m) - 1) <= Zpos m < 2 ^ Zpos (digits2_pos m).
Proof.
  induction m as [m IH|m IH|]; simpl digits2_pos.
  - rewrite Pos2Z.inj_succ, Z.pow_succ_r by lia.
    replace (Z.succ (Zpos (digits2_pos m)) - 1) with (Z.succ (Zpos (digits2_pos m) - 1)) by lia.
    rewrite Z.pow_succ_r by lia. lia.
  - rewrite Pos2Z.inj_succ, Z.pow_succ_r by lia.
    replace (Z.succ (Zpos (digits2_pos m)) - 1) with (Z.succ (Zpos (digits2_pos m) - 1)) by lia.
    rewrite Z.pow_succ_r by lia. lia.
  - simpl. lia.
Qed.

Lemma digits2_pos_unique m d :
  2 ^ (d - 1) <= Zpos m < 2 ^ d → Zpos (digits2_pos m) = d.
Proof.
  intros [Hlo Hhi]. pose proof (digits2_pos_spec m) as [Hlo' Hhi'].
  assert (0 < d).
  { destruct (decide (0 < d)); [done|]. 
    assert (2 ^ d <= 1) by (destruct (decide (d = 0)) as [->|]; [simpl; lia|rewrite Z.pow_neg_r; lia]).
    lia. }
  assert (d - 1 < Zpos (digits2_pos m)).
  { apply (Z.pow_lt_mono_r_iff 2); lia. }
  assert (Zpos (digits2_pos m) - 1 < d).
  { apply (Z.pow_lt_mono_r_iff 2); lia. }
  lia.
Qed.

Lemma shr_1_m mrs : 0 <= shr_m mrs → shr_m (shr_1 mrs) = shr_m mrs / 2.
Proof.
  destruct mrs as [[|[p|p|]|p] r s]; cbn [shr_1 shr_m]; intros Hm; try done.
  - apply (Z.div_unique _ _ _ 1); lia.
  - apply (Z.div_unique _ _ _ 0); lia.
Qed.

Lemma iter_shr_1_m n mrs :
  0 <= shr_m mrs → shr_m (SpecFloat.iter_pos shr_1 n mrs) = shr_m mrs / 2 ^ Zpos n.
Proof.
  revert mrs. induction n as [n IH|n IH|]; intros mrs Hm; simpl SpecFloat.iter_pos.
  - assert (0 <= shr_m (shr_1 mrs)) by (rewrite shr_1_m by done; apply Z.div_pos; lia).
    assert (0 <= shr_m (SpecFloat.iter_pos shr_1 n (shr_1 mrs)))
      by (rewrite IH by done; apply Z.div_pos; lia).
    rewrite !IH, shr_1_m by done.
    rewrite !Z.div_div by lia. f_equal.
    replace (Zpos n~1) with (1 + Zpos n + Zpos n) by lia.
    rewrite !Z.pow_add_r by lia. lia.
  - assert (0 <= shr_m (SpecFloat.iter_pos shr_1 n mrs))
      by (rewrite IH by done; apply Z.div_pos; lia).
    rewrite !IH by done.
    rewrite !Z.div_div by lia. f_equal.
    replace (Zpos n~0) with (Zpos n + Zpos n) by lia.
    rewrite !Z.pow_add_r by lia. lia.
  - rewrite shr_1_m by done. done.
Qed.

Lemma round_nearest_even_bounds m l :
  m <= round_nearest_even m l <= m + 1.
Proof. destruct l as [|[]]; simpl; try lia. destruct (Z.even m); lia. Qed.

(** Rounding to double a mantissa of more than 53 digits: the result is the
    truncated mantissa or the one above it, renormalised when it reaches
    [2 ^ 53]. *)
Lemma binary_round_aux_long s M E :
  let d := Zpos (digits2_pos M) in
  let q := Zpos M / 2 ^ (d - 53) in
  let e1 := E + (d - 53) in
  53 < d → -1074 <= e1 → e1 + 1 <= 971 →
  ∃ m2 e2,
    binary_round_aux 53 1024 s (Zpos M) E loc_Exact = S754_finite s m2 e2
    ∧ ((e2 = e1 ∧ q <= Zpos m2 <= q + 1) ∨ (e2 = e1 + 1 ∧ 2 * Zpos m2 = q + 1)).
Proof.
  intros d q e1 Hd Hlo Hhi.
  pose proof (digits2_pos_spec M) as [HMlo HMhi]. fold d in HMlo, HMhi.
  assert (2 ^ 52 <= q < 2 ^ 53) as Hq.
  { unfold q. split.
    - apply Z.div_le_lower_bound; [lia|]. rewrite <- Z.pow_add_r by lia.
      replace (d - 53 + 52) with (d - 1) by lia. done.
    - apply Z.div_lt_upper_bound; [lia|]. rewrite <- Z.pow_add_r by lia.
      replace (d - 53 + 53) with d by lia. done. }
  unfold binary_round_aux, shr_fexp. simpl Zdigits2. fold d.
  assert (fexp 53 1024 (d + E) - E = d - 53) as -> by (unfold fexp, emin; lia).
  destruct (d - 53) as [|n|n] eqn:Hn; [lia| |lia].
  unfold shr. simpl shr_record_of_loc.
  set (mrs := SpecFloat.iter_pos shr_1 n _).
  assert (shr_m mrs = q) as Hmrs.
  { unfold mrs. rewrite iter_shr_1_m by (simpl; lia). simpl. done. }
  pose proof (round_nearest_even_bounds (shr_m mrs) (loc_of_shr_record mrs)) as Hm1.
  set (m1 := round_nearest_even _ _) in *. rewrite Hmrs in Hm1.
  fold e1.
  destruct m1 as [|p1|p1] eqn:Hm1'; [lia| |lia].
  simpl Zdigits2.
  destruct (decide (Zpos p1 < 2 ^ 53)) as [Hsmall|Hbig].
  - rewrite (digits2_pos_unique p1 53) by lia.
    assert (fexp 53 1024 (53 + e1) - e1 = 0) as -> by (unfold fexp, emin; lia).
    simpl. replace (e1 <=? 1024 - 53) with true by (symmetry; apply Z.leb_le; lia).
    eexists _, _. split; [done|]. left. lia.
  - assert (Zpos p1 = 2 ^ 53) as Hm by lia.
    rewrite (digits2_pos_unique p1 54) by (rewrite Hm; simpl; lia).
    assert (fexp 53 1024 (54 + e1) - e1 = 1) as -> by (unfold fexp, emin; lia).
    simpl shr.
    assert (p1 = 9007199254740992%positive) as -> by lia.
    simpl. replace (e1 + 1 <=? 1024 - 53) with true by (symmetry; apply Z.leb_le; lia).
    eexists _, _. split; [done|]. right. split; [done|]. lia.
Qed.

Lemma binary_round_normal s m e :
  Zpos (digits2_pos m) <= 53 →
  -1074 <= Zpos (digits2_pos m) + e - 53 <= 971 →
  ∃ m',
    binary_round 53 1024 s m e = S754_finite s m' (Zpos (digits2_pos m) + e - 53)
    ∧ Zpos (digits2_pos m') = 53
    ∧ Zpos m' = Zpos m * 2 ^ (53 - Zpos (digits2_pos m)).
Proof.
  intros Hd He. unfold binary_round, shl_align.
  assert (fexp 53 1024 (Zpos (digits2_pos m) + e) = Zpos (digits2_pos m) + e - 53) as ->.
  { unfold fexp, emin. lia. }
  destruct (Zpos (digits2_pos m) + e - 53 - e) as [|k|k] eqn:Hk; [|lia|].
  - exists m. rewrite binary_round_aux_full by lia.
    replace (Zpos (digits2_pos m) + e - 53) with e by lia.
    replace (53 - Zpos (digits2_pos m)) with 0 by lia.
    split_and!; [done|lia|lia].
  - eexists. rewrite binary_round_aux_full.
    + split_and!; [done| |].
      * rewrite digits2_pos_shift. lia.
      * rewrite shift_value. f_equal. f_equal. lia.
    + rewrite digits2_pos_shift. lia.
    + lia.
Qed.

(** Truncating a number within one unit of [r * (2 ^ 59 + 12) / 100], held
    with [T] fractional units, gives the whole hundredth of [r]. *)
Lemma hundredth_truncation r A N T v :
  0 < r < 2 ^ 51 → 0 < A → 0 < N → 0 < T →
  T * N = 2 ^ 59 * A →
  N < 2 * (r * A) →
  let q := (r * A * 5764607523034235) / N in
  q <= v <= q + 1 →
  v / T = r / 100.
Proof.
  intros Hr HA HN HT HTN HNA q Hv.
  set (k := r / 100).
  assert (100 * k <= r < 100 * k + 100) as Hk.
  { unfold k. pose proof (Z.mul_div_le r 100 ltac:(lia)).
    pose proof (Z.mul_succ_div_gt r 100 ltac:(lia)). lia. }
  assert (0 <= k) by (apply Z.div_pos; lia).
  assert (k * T <= q) as Hlo.
  { unfold q. apply Z.div_le_lower_bound; [done|].
    replace (N * (k * T)) with (k * (T * N)) by lia. rewrite HTN.
    replace (k * (2 ^ 59 * A)) with (k * 2 ^ 59 * A) by lia.
    replace (r * A * 5764607523034235) with (r * 5764607523034235 * A) by lia.
    apply Z.mul_le_mono_nonneg_r; lia. }
  assert (q < (k + 1) * T - 1) as Hhi.
  { unfold q. apply Z.div_lt_upper_bound; [done|].
    replace (N * ((k + 1) * T - 1)) with ((k + 1) * (T * N) - N) by lia. rewrite HTN.
    assert ((r * 5764607523034235 + 2 * r) * A <= (k + 1) * 2 ^ 59 * A).
    { apply Z.mul_le_mono_nonneg_r; lia. }
    lia. }
  symmetry. apply (Z.div_unique _ _ _ (v - k * T)); lia.
Qed.

Lemma one_hundredth_eq :
  TSPP.one_hundredth = S754_finite false 5764607523034235 (-59).
Proof. reflexivity. Qed.

Lemma placeholderLatency_whole r :
  0 <= r < 2 ^ 51 → TSPP.placeholderLatency (double_lit r 0) = Some (r / 100).
Proof.
  intros Hr. destruct r as [|p|p]; [done| |lia].
  unfold TSPP.placeholderLatency, double_lit, double_mul. rewrite one_hundredth_eq.
  simpl binary_normalize.
  pose proof (digits2_pos_bound p 51 ltac:(lia) ltac:(lia)) as Hdp.
  pose proof (digits2_pos_spec p) as Hp.
  destruct (binary_round_normal false p 0 ltac:(lia) ltac:(lia))
    as (mx & -> & Hdx & Hmx).
  set (dp := Zpos (digits2_pos p)) in *.
  assert (0 < dp) by (unfold dp; lia).
  set (A := 2 ^ (53 - dp)) in *.
  assert (0 < A) as HA by (apply Z.pow_pos_nonneg; lia).
  pose proof (digits2_pos_spec mx) as Hx. rewrite Hdx in Hx.
  cbn [SFmul xorb].
  set (M := (mx * 5764607523034235)%positive).
  assert (Zpos M = Zpos p * A * 5764607523034235) as HM by (unfold M; lia).
  pose proof (digits2_pos_spec M) as HdM.
  set (d := Zpos (digits2_pos M)) in *.
  assert (105 <= d <= 106) as Hd.
  { split.
    - assert (104 < d); [|lia]. apply (Z.pow_lt_mono_r_iff 2); [lia|lia|].
      assert (2 ^ 104 <= Zpos M); [|lia].
      change (2 ^ 104) with (2 ^ 52 * 2 ^ 52). unfold M. lia.
    - assert (d - 1 < 106); [|lia]. apply (Z.pow_lt_mono_r_iff 2); [lia|lia|].
      assert (Zpos M < 2 ^ 106); [|lia].
      change (2 ^ 106) with (2 ^ 53 * 2 ^ 53). unfold M. lia. }
  destruct (binary_round_aux_long false M (dp + 0 - 53 + -59) ltac:(fold d; lia)
    ltac:(fold d; lia) ltac:(fold d; lia)) as (m2 & e2 & -> & Hcase).
  fold d in Hcase.
  set (N := 2 ^ (d - 53)) in *.
  set (e1 := dp + 0 - 53 + -59 + (d - 53)) in *.
  assert (0 < N) as HN by (apply Z.pow_pos_nonneg; lia).
  assert (-60 <= e1 <= -8) as He1 by (unfold e1; lia).
  assert (2 ^ (- e1) * N = 2 ^ 59 * A) as HTN.
  { unfold N, A, e1. rewrite <- !Z.pow_add_r by lia. f_equal. lia. }
  assert (N < 2 * (Zpos p * A)) as HNA.
  { assert (N * 2 ^ 52 <= Zpos M); [|lia].
    unfold N. rewrite <- Z.pow_add_r by lia.
    replace (d - 53 + 52) with (d - 1) by lia. lia. }
  assert (0 < 2 ^ (- e1)) as HT by (apply Z.pow_pos_nonneg; lia).
  assert (Zpos p / 100 <= Zpos p) as Hdiv.
  { apply Z.div_le_upper_bound; lia. }
  assert (0 <= Zpos p / 100) by (apply Z.div_pos; lia).
  assert (SIZE_MAX = 2 ^ 64 - 1) as HSIZE by reflexivity.
  rewrite HM in Hcase.
  destruct Hcase as [[-> Hm2]|[-> Hm2]].
  - unfold size_of_double.
    replace (0 <=? e1) with false by (symmetry; apply Z.leb_gt; clear -He1; lia).
    cbn [cond_Zopp].
    rewrite (hundredth_truncation (Zpos p) A N (2 ^ (- e1)) (Zpos m2)
      ltac:(lia) HA HN HT HTN HNA Hm2).
    replace (0 <=? Zpos p / 100) with true by (symmetry; apply Z.leb_le; lia).
    replace (Zpos p / 100 <=? SIZE_MAX) with true by (symmetry; apply Z.leb_le; lia).
    done.
  - unfold size_of_double.
    replace (0 <=? e1 + 1) with false by (symmetry; apply Z.leb_gt; clear -He1; lia).
    cbn [cond_Zopp].
    assert (Zpos m2 / 2 ^ (- (e1 + 1)) = (2 * Zpos m2) / 2 ^ (- e1)) as ->.
    { replace (- e1) with (1 + - (e1 + 1)) by lia.
      rewrite Z.pow_add_r by lia. change (2 ^ 1) with 2.
      rewrite Z.div_mul_cancel_l; [done| |lia].
      apply Z.pow_nonzero; lia. }
    rewrite (hundredth_truncation (Zpos p) A N (2 ^ (- e1)) (2 * Zpos m2)
      ltac:(lia) HA HN HT HTN HNA ltac:(cbv zeta; lia)).
    replace (0 <=? Zpos p / 100) with true by (symmetry; apply Z.leb_le; lia).
    replace (Zpos p / 100 <=? SIZE_MAX) with true by (symmetry; apply Z.leb_le; lia).
    done.
Qed.

(** X17. Without the library, a processor built for a whole sample rate
    [r] below [2 ^ 51] has a latency of [r / 100] samples, rounded down:
    neither the rounding of the literal [0.01] (which lies above one
    hundredth) nor that of the product moves the truncated value, and the
    pending counter starts at that latency. *)
Theorem placeholder_latency_of_whole_rate r channelCount :
  0 <= r < 2 ^ 51 →
  LCP.new false (double_lit r 0) channelCount
  = Some (placeholder_state (double_lit r 0) channelCount (r / 100)).
Proof.
  intros Hr. unfold LCP.new, TSPP.new, TSPP.configureProcessor. simpl.
  rewrite placeholderLatency_whole by done. simpl.
  unfold LCP.refreshPendingLatency, placeholder_state. simpl.
  do 2 f_equal. rewrite totalLatencySamples_eq.
  unfold TSPP.getLatencySamples. simpl. rewrite Z.add_0_r.
  apply to_size_t_id. unfold is_size_t.
  assert (r / 100 <= r) by (apply Z.div_le_upper_bound; lia).
  assert (0 <= r / 100) by (apply Z.div_pos; lia).
  assert (SIZE_MAX = 2 ^ 64 - 1) by reflexivity. lia.
Qed.

End Placeholder_latency.

(** ** The further properties at concrete inputs *)

Lemma loopback_transparent : @transparent_library loopback.
Proof.
  intros channels frames final s Hne Hall. simpl. split.
  - destruct channels as [|c channels]; [done|]. simpl.
    by apply Forall_cons in Hall as [? _].
  - induction Hall as [|c channels Hc _ IH]; [done|]. simpl. f_equal.
    + apply take_ge. unfold size in Hc. lia.
    + destruct channels; [done|]. by apply IH.
Qed.

Lemma process_whole_frames_witness :
  engine_consistent (LCP.processor_ fresh_placeholder)
  ∧ TSPP.process three_frames 3 [] (LCP.processor_ fresh_placeholder)
    = Some (3, three_frames, LCP.processor_ fresh_placeholder)
  ∧ size three_frames = size_mul 3 (to_size_t 2).
Proof.
  pose proof fresh_placeholder_consistent as (Hc & _).
  split; [exact Hc|]. split; [exact three_frames_processed|].
  by destruct (process_whole_frames (H := loopback) three_frames 3 []
                 (LCP.processor_ fresh_placeholder) 3 three_frames
                 (LCP.processor_ fresh_placeholder) Hc three_frames_processed)
    as (Hsize & _).
Defined.

Lemma setParameters_getParameters_witness :
  TSPP.setParameters fast_parameters (LCP.processor_ fresh_placeholder)
    = Some (LCP.processor_ fast_placeholder)
  ∧ TSPP.getParameters (LCP.processor_ fast_placeholder) = fast_parameters
  ∧ TSPP.getLatencySamples (LCP.processor_ fast_placeholder) = 480.
Proof.
  pose proof fresh_placeholder_consistent as (Hc & _).
  assert (TSPP.setParameters fast_parameters (LCP.processor_ fresh_placeholder)
          = Some (LCP.processor_ fast_placeholder)) as Hset
    by (vm_compute; reflexivity).
  destruct (setParameters_getParameters (H := loopback) fast_parameters
              (LCP.processor_ fresh_placeholder) (LCP.processor_ fast_placeholder)
              Hc Hset)
    as (Hget & _ & _ & _ & _ & Hlat).
  split; [exact Hset|]. split; [exact Hget|]. rewrite (Hlat I). reflexivity.
Defined.

Lemma setParameters_ignores_quality_witness :
  ∃ t1 t2,
    TSPP.setParameters Parameters_default (LCP.processor_ fresh_rubberband) = Some t1
    ∧ TSPP.setParameters fast_parameters (LCP.processor_ fresh_rubberband) = Some t2
    ∧ TSPP.getParameters t1 ≠ TSPP.getParameters t2
    ∧ TSPP.getLatencySamples t1 = TSPP.getLatencySamples t2
    ∧ (λ r, (r.1.1, r.1.2)) <$> TSPP.process three_frames 3 [] t1
      = (λ r, (r.1.1, r.1.2)) <$> TSPP.process three_frames 3 [] t2.
Proof.
  eexists _, _. split; [vm_compute; reflexivity|]. split; [vm_compute; reflexivity|].
  split; [discriminate|].
  apply (setParameters_ignores_quality (H := loopback) Parameters_default fast_parameters
           (LCP.processor_ fresh_rubberband)).
  - discriminate.
  - reflexivity.
  - reflexivity.
  - vm_compute. reflexivity.
  - vm_compute. reflexivity.
Defined.

Lemma highQuality_without_effect_witness :
  @OptionPitchHighSpeed loopback = 0
  ∧ RubberBandAdapter.stretcher_
      (RubberBandAdapter.new (H := loopback) (double_lit 48000 0) 2 Parameters_default)
    = RubberBandAdapter.stretcher_
        (RubberBandAdapter.new (H := loopback) (double_lit 48000 0) 2
           {| tempoRatio := double_lit 1 0;
              pitchSemitones := double_lit 0 0;
              quality := {| formantPreservation := float_lit 1 (-1);
                            transientSensitivity := float_lit 1 (-1);
                            highQuality := false |} |}).
Proof.
  split; [reflexivity|].
  apply (highQuality_without_effect (H := loopback)); reflexivity.
Defined.

Lemma reachable_invariant_witness :
  reachable false (double_lit 48000 0) 2 fresh_placeholder
  ∧ consistent fresh_placeholder
  ∧ is_Some (LCP.updateControls late_controls fresh_placeholder).
Proof.
  assert (reachable false (double_lit 48000 0) 2 fresh_placeholder) as Hreach
    by (apply reachable_new; exact fresh_placeholder_new).
  split; [exact Hreach|].
  destruct (reachable_invariant (H := loopback) false (double_lit 48000 0) 2
              fresh_placeholder Hreach) as (Hc & _ & _ & _ & _ & _ & Hupd).
  split; [exact Hc|apply Hupd].
Defined.

Lemma placeholder_block_witness :
  consistent fresh_placeholder
  ∧ is_placeholder (LCP.processor_ fresh_placeholder)
  ∧ LCP.processBlock (take 5 three_frames) 3 [] fresh_placeholder = None
  ∧ ∃ p',
      LCP.processBlock three_frames 3 [] fresh_placeholder
      = Some (3, replicate 6 zero_sample ++ three_frames ++ replicate 474 zero_sample, p').
Proof.
  split; [exact fresh_placeholder_consistent|]. split; [exact I|].
  split.
  - destruct (placeholder_block (H := loopback) (take 5 three_frames) 3 []
                fresh_placeholder fresh_placeholder_consistent I) as [Hiff _].
    destruct (LCP.processBlock _ _ _ _) as [r|] eqn:Hr; [|reflexivity].
    exfalso. assert (is_Some (Some r)) as Hsome by (by eexists).
    apply Hiff in Hsome. vm_compute in Hsome. by apply Hsome.
  - destruct (placeholder_block (H := loopback) three_frames 3 []
                fresh_placeholder fresh_placeholder_consistent I) as [_ Hblock].
    eexists. rewrite Hblock.
    + reflexivity.
    + vm_compute. discriminate.
    + vm_compute. discriminate.
Defined.

(** Controls far outside the advertised ranges: the tempo default exceeds
    the tempo maximum. *)
Lemma endpoints_after_update_witness :
  let c := {| LCP.tempoRatio := double_lit 10 0;
              LCP.pitchSemitones := double_lit 40 0;
              LCP.manualLatencySamples := -5 |} in
  ∃ p',
    LCP.updateControls c fresh_placeholder = Some p'
    ∧ LCP.currentControls p' = c
    ∧ ∃ tempo,
        head (LCP.controlEndpoints p') = Some tempo
        ∧ SFltb (LCP.maximum tempo) (LCP.defaultValue tempo) = true.
Proof.
  intros c. eexists. split; [vm_compute; reflexivity|].
  edestruct (endpoints_after_update (H := loopback) c fresh_placeholder)
    as (Hctl & _).
  - vm_compute. reflexivity.
  - split; [exact Hctl|]. eexists. split; [reflexivity|]. vm_compute. reflexivity.
Defined.

Lemma adapter_needs_whole_buffer_witness :
  let a := {| RubberBandAdapter.channelCount_ := 2;
              RubberBandAdapter.parameters_ := Parameters_default;
              RubberBandAdapter.stretcher_ := ([] : @RubberBandStretcher loopback) |} in
  RubberBandAdapter.process three_frames 3 [] a = Some (3, three_frames, a)
  ∧ 2 * 3 <= size three_frames.
Proof.
  intros a.
  assert (RubberBandAdapter.process three_frames 3 [] a = Some (3, three_frames, a))
    as Hp by (vm_compute; reflexivity).
  split; [exact Hp|].
  apply (adapter_needs_whole_buffer (H := loopback) three_frames 3 [] a _ Hp).
  - unfold is_size_t, SIZE_MAX. lia.
  - vm_compute. discriminate.
Defined.

Lemma transparent_round_trip_witness :
  let a := {| RubberBandAdapter.channelCount_ := 2;
              RubberBandAdapter.parameters_ := Parameters_default;
              RubberBandAdapter.stretcher_ := ([] : @RubberBandStretcher loopback) |} in
  ∃ a',
    RubberBandAdapter.process block_512 512 [zero_sample] a
    = Some (512, take (Z.to_nat (2 * 512)) block_512, a').
Proof.
  intros a.
  destruct (transparent_round_trip (H := loopback) block_512 512 [zero_sample] a
              loopback_transparent) as (a' & Hp & _).
  - unfold is_size_t, SIZE_MAX. lia.
  - simpl. lia.
  - unfold is_int. simpl. lia.
  - vm_compute. discriminate.
  - vm_compute. discriminate.
  - exists a'. exact Hp.
Defined.

Lemma audioCallback_silence_witness :
  Main.audioCallback three_frames 2 (Some Main.CallbackData_default)
  = Some (Main.paContinue,
          replicate 4 zero_sample ++ drop 4 three_frames,
          Some {| Main.framesRendered := 2; Main.channels := 2 |})
  ∧ Main.audioCallback three_frames 4 (Some Main.CallbackData_default) = None.
Proof.
  destruct (audioCallback_silence three_frames 2 (Some Main.CallbackData_default))
    as [_ Hcall].
  destruct (audioCallback_silence three_frames 4 (Some Main.CallbackData_default))
    as [Hiff _].
  split.
  - vm_compute. reflexivity.
  - destruct (Main.audioCallback three_frames 4 _) as [r|] eqn:Hr; [|reflexivity].
    exfalso. assert (is_Some (Some r)) as Hsome by (by eexists).
    apply Hiff in Hsome. vm_compute in Hsome. by apply Hsome.
Defined.

Lemma callbacks_count_witness :
  ∃ results,
    Main.callbacks [(three_frames, 2); (three_frames, 3)] (Some Main.CallbackData_default)
    = Some (results, Some {| Main.framesRendered := 5; Main.channels := 2 |})
    ∧ length results = 2%nat.
Proof.
  eexists. split; [vm_compute; reflexivity|].
  edestruct (callbacks_count [(three_frames, 2); (three_frames, 3)]
               Main.CallbackData_default) as (_ & Hlen & _).
  - unfold is_size_t, SIZE_MAX. simpl. lia.
  - vm_compute. reflexivity.
  - exact Hlen.
Defined.

Lemma audioCallback_negative_channels_witness :
  Main.audioCallback three_frames 1
    (Some {| Main.framesRendered := 0; Main.channels := -2 |}) = None.
Proof.
  apply audioCallback_negative_channels.
  - simpl. lia.
  - lia.
  - vm_compute. discriminate.
Defined.

Lemma parseArgs_append_witness :
  well_paired [ "-f"; "256"; "bogus" ]%string
  ∧ Main.parseArgs (H := plain_conversions)
      [ "deejay_audio"; "-f"; "256"; "bogus"; "--channels"; "4" ]%string
    = Main.Returns {| Main.sampleRate := double_lit 48000 0;
                      Main.framesPerBuffer := 256;
                      Main.durationSeconds := double_lit 2 0;
                      Main.session_channels := 4 |}.
Proof.
  assert (well_paired [ "-f"; "256"; "bogus" ]%string) as Hpaired.
  { apply well_paired_flag; [unfold value_flags; repeat constructor|].
    apply well_paired_other; [|constructor].
    unfold value_flags. rewrite !not_elem_of_cons. split_and!; try discriminate.
    apply not_elem_of_nil. }
  split; [exact Hpaired|].
  pose proof (parseArgs_append (H := plain_conversions) "deejay_audio"
                [ "-f"; "256"; "bogus" ]%string [ "--channels"; "4" ]%string Hpaired)
    as Happend.
  cbn [app] in Happend. rewrite Happend. vm_compute. reflexivity.
Defined.

Lemma parseArgs_skips_witness :
  Main.parseArgs_loop (H := plain_conversions) [ "--frames" ]%string
    Main.SessionConfig_default
  = Main.Returns Main.SessionConfig_default
  ∧ Main.parseArgs_loop (H := plain_conversions) [ "--frame"; "256" ]%string
      Main.SessionConfig_default
    = Main.Returns Main.SessionConfig_default.
Proof.
  split.
  - rewrite (parseArgs_skips (H := plain_conversions)); [reflexivity| |by right].
    unfold help_flags. rewrite !not_elem_of_cons. split_and!; try discriminate.
    apply not_elem_of_nil.
  - rewrite (parseArgs_skips (H := plain_conversions)).
    + vm_compute. reflexivity.
    + unfold help_flags. rewrite !not_elem_of_cons. split_and!; try discriminate.
      apply not_elem_of_nil.
    + left. unfold value_flags. rewrite !not_elem_of_cons.
      split_and!; try discriminate. apply not_elem_of_nil.
Defined.


Lemma parseArgs_help_witness :
  Main.parseArgs (H := plain_conversions)
    [ "deejay_audio"; "-f"; "256"; "-h"; "--channels"; "many" ]%string
  = Main.Exits 0 Main.usage
  ∧ Main.parseArgs (H := plain_conversions)
      [ "deejay_audio"; "-f"; "many"; "-h" ]%string
    = Main.Throws.
Proof.
  assert (well_paired [ "-f"; "256" ]%string) as Hpaired
    by (apply well_paired_flag; [unfold value_flags; repeat constructor|constructor]).
  assert (well_paired [ "-f"; "many" ]%string) as Hpaired'
    by (apply well_paired_flag; [unfold value_flags; repeat constructor|constructor]).
  assert ("-h"%string ∈ help_flags) as Hhelp by (unfold help_flags; repeat constructor).
  split.
  - pose proof (parseArgs_help (H := plain_conversions) "deejay_audio"
                  [ "-f"; "256" ]%string "-h" [ "--channels"; "many" ]%string
                  Hpaired Hhelp) as Hparse.
    cbn [app] in Hparse. rewrite Hparse. vm_compute. reflexivity.
  - pose proof (parseArgs_help (H := plain_conversions) "deejay_audio"
                  [ "-f"; "many" ]%string "-h" [] Hpaired' Hhelp) as Hparse.
    cbn [app] in Hparse. rewrite Hparse. vm_compute. reflexivity.
Defined.

Lemma placeholder_latency_of_whole_rate_witness :
  0 <= 44100 < 2 ^ 51
  ∧ LCP.new (H := loopback) false (double_lit 44100 0) 2
    = Some (placeholder_state (double_lit 44100 0) 2 441).
Proof.
  split; [lia|].
  apply (placeholder_latency_of_whole_rate (H := loopback) 44100 2). lia.
Defined.
